(** * mcrouter: the wire parser (McParser.cpp) and the request context
      (ProxyRequestContext.h), as a shallow embedding.

    Sizes are [N]; bytes are [Byte.byte]; the read buffer is a record with
    the geometry of a [folly::IOBuf] (capacity, headroom, pending bytes).
    Everything the two files call but do not define (the header parsers, the
    protocol detector, the callbacks, the allocator's rounding) is a
    parameter of the development. *)

From Stdlib Require Import NArith ZArith List String Bool Lia Arith.
From Stdlib.Strings Require Import Byte.
Import ListNotations.
Open Scope N_scope.

(** ** The read buffer ([folly::IOBuf], unchained) *)

Module IOBuf.

  (** [capacity] bytes of storage; the pending bytes [data] start at offset
      [headroom]; what follows them is the writable tail. *)
Record t := mk { capacity : N; headroom : N; data : list byte }.

Definition length (b : t) : N := N.of_nat (List.length (data b)).
Definition tailroom (b : t) : N := capacity b - (headroom b + length b).
Definition empty (b : t) : bool := length b =? 0.

  (** The three regions partition the storage. *)
Definition wf (b : t) : Prop := headroom b + length b <= capacity b.

  (** [clear()]: no pending bytes, cursors back at the start. *)
Definition clear (b : t) : t := mk (capacity b) 0 [].

  (** [retreat(n)]: move the pending bytes [n] positions towards the start. *)
Definition retreat (n : N) (b : t) : t :=
    mk (capacity b) (headroom b - n) (data b).

  (** [trimStart(n)]: advance the read cursor, no memory moves. *)
Definition trimStart (n : N) (b : t) : t :=
    mk (capacity b) (headroom b + n) (skipn (N.to_nat n) (data b)).

  (** [append(len)] after the caller wrote [bytes] into the writable tail. *)
Definition append (bytes : list byte) (b : t) : t :=
    mk (capacity b) (headroom b) (data b ++ bytes).

  (** [unshare()]: the parser is the only owner of its buffer. *)
Definition unshare (b : t) : t := b.

Section Alloc.
    (** The allocator's rounding: asked for [n] bytes it hands out
        [goodSize n] of them. *)
Variable goodSize : N -> N.

    (** [IOBuf(CREATE, n)]. *)
Definition create (n : N) : t := mk (goodSize n) 0 [].

    (** [reserve(minHeadroom, minTailroom)]: nothing when there is room
        already; a move inside the storage when head and tail together
        suffice; a fresh storage otherwise. *)
Definition reserve (minHeadroom minTailroom : N) (b : t) : t :=
      if (minHeadroom <=? headroom b) && (minTailroom <=? tailroom b) then b
      else if minHeadroom + minTailroom <=? headroom b + tailroom b
      then mk (capacity b) minHeadroom (data b)
      else mk (goodSize (length b + minHeadroom + minTailroom))
              minHeadroom (data b).

    (** [IOBuf(TAKE_OWNERSHIP, p, capacity, length, ...)] over a copy of the
        pending bytes. *)
Definition takeOwnership (cap : N) (bytes : list byte) : t :=
      mk cap 0 bytes.
End Alloc.

End IOBuf.

(** ** Protocol, parse status, message info *)

Inductive mc_protocol_t :=
| mc_unknown_protocol
| mc_ascii_protocol
| mc_umbrella_protocol
| mc_caret_protocol.

Definition mc_protocol_eqb (a b : mc_protocol_t) : bool :=
  match a, b with
  | mc_unknown_protocol, mc_unknown_protocol
  | mc_ascii_protocol, mc_ascii_protocol
  | mc_umbrella_protocol, mc_umbrella_protocol
  | mc_caret_protocol, mc_caret_protocol => true
  | _, _ => false
  end.

Definition is_binary (pr : mc_protocol_t) : bool :=
  mc_protocol_eqb pr mc_umbrella_protocol || mc_protocol_eqb pr mc_caret_protocol.

Inductive UmbrellaParseStatus := OK | MESSAGE_PARSE_ERROR | NOT_ENOUGH_DATA.

Inductive mc_res_t := mc_res_unknown | mc_res_local_error | mc_res_remote_error.

(** Modelled from the spec: the frame descriptor [UmbrellaMessageInfo]
    (declared in UmbrellaProtocol.h), with the spec's fields.  The two
    sizes are [size_t] in the code: their sum is handed to [std::max]
    together with [bufferSize_] and initialises a [size_t]. *)
Record UmbrellaMessageInfo := mkInfo {
  headerSize : N;
  bodySize : N;
  typeId : N;
  reqId : N
}.

Definition size_max : N := 2 ^ 64.

(** [umMsgInfo_.headerSize + umMsgInfo_.bodySize], a [size_t] sum. *)
Definition messageSizeOf (i : UmbrellaMessageInfo) : N :=
  (headerSize i + bodySize i) mod size_max.

Definition kAdjustBufferSizeInterval : N := 10000.

(** ** What the parser tells the outside world

    The calls on [callback_], in order, with what they were given and what
    they answered; [EvBufferReplaced] marks [shrinkBuffer] putting a fresh
    buffer in place. *)

Inductive Event :=
| EvParseError (res : mc_res_t) (msg : string)
| EvUmMessageReady (info : UmbrellaMessageInfo) (buf : IOBuf.t) (status : bool)
| EvCaretMessageReady (info : UmbrellaMessageInfo) (buf : IOBuf.t) (status : bool)
| EvHandleAscii (buf : IOBuf.t)
| EvBufferReplaced (size : N).

(** The [ParserCallback] interface over a callback object of state [CB]. *)
Record ParserCallback (CB : Type) := {
  umMessageReady : UmbrellaMessageInfo -> IOBuf.t -> CB -> bool * CB;
  caretMessageReady : UmbrellaMessageInfo -> IOBuf.t -> CB -> bool * CB;
  handleAscii : IOBuf.t -> CB -> IOBuf.t * CB;
  parseError : mc_res_t -> string -> CB -> CB
}.
Arguments umMessageReady {CB}.
Arguments caretMessageReady {CB}.
Arguments handleAscii {CB}.
Arguments parseError {CB}.

(** What the parser calls and McParser.cpp does not define. *)
Record Externals := {
  goodSize : N -> N;
  determineProtocol : byte -> mc_protocol_t;
  umbrellaParseHeader : list byte -> UmbrellaParseStatus * UmbrellaMessageInfo;
  caretParseHeader : list byte -> UmbrellaParseStatus * UmbrellaMessageInfo;
  mc_protocol_to_string : mc_protocol_t -> string;
  CAN_USE_JEMALLOC_NODUMP_ALLOCATOR : bool
}.

(** ** The parser ([McParser]) *)

Record McParser (CB : Type) := mkParser {
  callback_ : CB;
  bufferSize_ : N;
  maxBufferSize_ : N;
  readBuffer_ : IOBuf.t;
  useJemallocNodumpAllocator_ : bool;
  seenFirstByte_ : bool;
  protocol_ : mc_protocol_t;
  outOfOrder_ : bool;
  parsedMessages_ : N;
  umMsgInfo_ : UmbrellaMessageInfo
}.
Arguments mkParser {CB}.
Arguments callback_ {CB}.
Arguments bufferSize_ {CB}.
Arguments maxBufferSize_ {CB}.
Arguments readBuffer_ {CB}.
Arguments useJemallocNodumpAllocator_ {CB}.
Arguments seenFirstByte_ {CB}.
Arguments protocol_ {CB}.
Arguments outOfOrder_ {CB}.
Arguments parsedMessages_ {CB}.
Arguments umMsgInfo_ {CB}.

Section Parser.

Context {CB : Type}.
Variable cbk : ParserCallback CB.
Variable X : Externals.

Local Abbreviation Parser := (McParser CB).

Definition set_callback (c : CB) (p : Parser) : Parser :=
  mkParser c (bufferSize_ p) (maxBufferSize_ p) (readBuffer_ p)
    (useJemallocNodumpAllocator_ p) (seenFirstByte_ p) (protocol_ p)
    (outOfOrder_ p) (parsedMessages_ p) (umMsgInfo_ p).

Definition set_bufferSize (n : N) (p : Parser) : Parser :=
  mkParser (callback_ p) n (maxBufferSize_ p) (readBuffer_ p)
    (useJemallocNodumpAllocator_ p) (seenFirstByte_ p) (protocol_ p)
    (outOfOrder_ p) (parsedMessages_ p) (umMsgInfo_ p).

Definition set_readBuffer (b : IOBuf.t) (p : Parser) : Parser :=
  mkParser (callback_ p) (bufferSize_ p) (maxBufferSize_ p) b
    (useJemallocNodumpAllocator_ p) (seenFirstByte_ p) (protocol_ p)
    (outOfOrder_ p) (parsedMessages_ p) (umMsgInfo_ p).

Definition set_seenFirstByte (v : bool) (p : Parser) : Parser :=
  mkParser (callback_ p) (bufferSize_ p) (maxBufferSize_ p) (readBuffer_ p)
    (useJemallocNodumpAllocator_ p) v (protocol_ p)
    (outOfOrder_ p) (parsedMessages_ p) (umMsgInfo_ p).

Definition set_protocol (v : mc_protocol_t) (p : Parser) : Parser :=
  mkParser (callback_ p) (bufferSize_ p) (maxBufferSize_ p) (readBuffer_ p)
    (useJemallocNodumpAllocator_ p) (seenFirstByte_ p) v
    (outOfOrder_ p) (parsedMessages_ p) (umMsgInfo_ p).

Definition set_outOfOrder (v : bool) (p : Parser) : Parser :=
  mkParser (callback_ p) (bufferSize_ p) (maxBufferSize_ p) (readBuffer_ p)
    (useJemallocNodumpAllocator_ p) (seenFirstByte_ p) (protocol_ p)
    v (parsedMessages_ p) (umMsgInfo_ p).

Definition set_parsedMessages (n : N) (p : Parser) : Parser :=
  mkParser (callback_ p) (bufferSize_ p) (maxBufferSize_ p) (readBuffer_ p)
    (useJemallocNodumpAllocator_ p) (seenFirstByte_ p) (protocol_ p)
    (outOfOrder_ p) n (umMsgInfo_ p).

Definition set_umMsgInfo (i : UmbrellaMessageInfo) (p : Parser) : Parser :=
  mkParser (callback_ p) (bufferSize_ p) (maxBufferSize_ p) (readBuffer_ p)
    (useJemallocNodumpAllocator_ p) (seenFirstByte_ p) (protocol_ p)
    (outOfOrder_ p) (parsedMessages_ p) i.

(** The constructor.  Modelled from the spec: the members its initialiser
    list leaves out are declared in McParser.h and start as the spec's
    parser state does: no byte seen, protocol unknown, in order, no message
    counted. *)
Definition McParser_new (callback : CB) (minBufferSize maxBufferSize : N)
    (useJemallocNodumpAllocator : bool) : Parser :=
  mkParser callback minBufferSize maxBufferSize
    (IOBuf.create (goodSize X) minBufferSize)
    (useJemallocNodumpAllocator && CAN_USE_JEMALLOC_NODUMP_ALLOCATOR X)
    false mc_unknown_protocol false 0 (mkInfo 0 0 0 0).

Definition reset (p : Parser) : Parser :=
  set_readBuffer (IOBuf.clear (readBuffer_ p)) p.

(** The condition under which [shrinkBuffer] replaces the buffer. *)
Definition shrinkCondition (p : Parser) : bool :=
  (kAdjustBufferSizeInterval <=? parsedMessages_ p)
  && (maxBufferSize_ p <? IOBuf.capacity (readBuffer_ p))
  && (IOBuf.length (readBuffer_ p) =? 0).

Definition shrinkBuffer (p : Parser) : Parser * list Event :=
  if shrinkCondition p then
    let p := set_parsedMessages 0 p in
    let p := set_bufferSize (N.min (bufferSize_ p) (maxBufferSize_ p)) p in
    (set_readBuffer (IOBuf.create (goodSize X) (bufferSize_ p)) p,
     [EvBufferReplaced (bufferSize_ p)])
  else (p, []).

(** Which of its three branches [getReadBuffer] takes. *)
Inductive Adjustment := AdjClear | AdjRetreat | AdjReserve.

Definition getReadBuffer_choice (p : Parser) : Adjustment :=
  let b := IOBuf.unshare (readBuffer_ p) in
  if (IOBuf.length b =? 0) && (0 <? IOBuf.capacity b) then AdjClear
  else if 0 <? IOBuf.headroom b then AdjRetreat
  else AdjReserve.

(** [getReadBuffer]: the parser afterwards and the [max_len] it returns
    (the pointer is the start of the writable tail). *)
Definition getReadBuffer (p : Parser) : Parser * N :=
  let b := IOBuf.unshare (readBuffer_ p) in
  let b :=
    if (IOBuf.length b =? 0) && (0 <? IOBuf.capacity b) then
      IOBuf.clear b
    else if 0 <? IOBuf.headroom b then
      IOBuf.retreat (IOBuf.headroom b) b
    else
      IOBuf.reserve (goodSize X) 0 (bufferSize_ p) b in
  (set_readBuffer b p, N.min (IOBuf.tailroom b) (bufferSize_ p)).

(** [copyToNodumpBuffer]: a storage of exactly header plus body bytes that
    holds a copy of the pending bytes (allocation is taken to succeed). *)
Definition copyToNodumpBuffer (i : UmbrellaMessageInfo) (b : IOBuf.t) : IOBuf.t :=
  IOBuf.takeOwnership (messageSizeOf i) (IOBuf.data b).

Definition parseHeader (pr : mc_protocol_t) (bytes : list byte)
    : UmbrellaParseStatus * UmbrellaMessageInfo :=
  if mc_protocol_eqb pr mc_umbrella_protocol
  then umbrellaParseHeader X bytes
  else caretParseHeader X bytes.

Definition messageReady (pr : mc_protocol_t) (i : UmbrellaMessageInfo)
    (b : IOBuf.t) (c : CB) : bool * CB * Event :=
  if mc_protocol_eqb pr mc_umbrella_protocol
  then let '(st, c') := umMessageReady cbk i b c in
       (st, c', EvUmMessageReady i b st)
  else let '(st, c') := caretMessageReady cbk i b c in
       (st, c', EvCaretMessageReady i b st).

Definition parseErrorMessage (pr : mc_protocol_t) : string :=
  ("Error parsing " ++ mc_protocol_to_string X pr ++ " header")%string.

(** Modelled from the spec: the increment of [messages_parsed_since_adjust].
    McParser.cpp reads and resets [parsedMessages_] and never increments it;
    the spec's dispatcher does "consume_front(frame_size); increment
    counter" for each frame the callback accepted.  The counter is a
    64-bit unsigned. *)
Definition reportMsgRead (p : Parser) : Parser :=
  set_parsedMessages ((parsedMessages_ p + 1) mod size_max) p.

(** Case 3 of the loop: full header, body incomplete. *)
Definition growForBody (p : Parser) : Parser :=
  let messageSize := messageSizeOf (umMsgInfo_ p) in
  let b := readBuffer_ p in
  let p :=
    if IOBuf.length b + IOBuf.tailroom b <? messageSize then
      let b := IOBuf.unshare b in
      let p := set_bufferSize (N.max (bufferSize_ p) messageSize) p in
      set_readBuffer
        (IOBuf.reserve (goodSize X) 0 (bufferSize_ p - IOBuf.length b) b) p
    else p in
  if CAN_USE_JEMALLOC_NODUMP_ALLOCATOR X && useJemallocNodumpAllocator_ p
  then set_readBuffer (copyToNodumpBuffer (umMsgInfo_ p) (readBuffer_ p)) p
  else p.

(** [readUmbrellaOrCaretData]: the [while] loop, one iteration per unit of
    [fuel]; [None] when the fuel runs out before the loop exits. *)
Fixpoint readUmbrellaOrCaretData (fuel : nat) (p : Parser)
    : option (bool * Parser * list Event) :=
  match fuel with
  | O => None
  | S fuel' =>
    if IOBuf.empty (readBuffer_ p) then Some (true, p, [])
    else
      let '(parseStatus, info) :=
        parseHeader (protocol_ p) (IOBuf.data (readBuffer_ p)) in
      let p := set_umMsgInfo info p in
      match parseStatus with
      | NOT_ENOUGH_DATA => Some (true, p, [])
      | MESSAGE_PARSE_ERROR =>
        let msg := parseErrorMessage (protocol_ p) in
        Some (false,
              set_callback (parseError cbk mc_res_remote_error msg (callback_ p)) p,
              [EvParseError mc_res_remote_error msg])
      | OK =>
        let messageSize := messageSizeOf (umMsgInfo_ p) in
        if messageSize <=? IOBuf.length (readBuffer_ p) then
          let '(cbStatus, c, ev) :=
            messageReady (protocol_ p) (umMsgInfo_ p) (readBuffer_ p) (callback_ p) in
          let p := set_callback c p in
          if negb cbStatus then
            Some (false, set_readBuffer (IOBuf.clear (readBuffer_ p)) p, [ev])
          else
            let p := set_readBuffer (IOBuf.trimStart messageSize (readBuffer_ p)) p in
            match readUmbrellaOrCaretData fuel' (reportMsgRead p) with
            | Some (r, p', evs) => Some (r, p', ev :: evs)
            | None => None
            end
        else if IOBuf.length (readBuffer_ p) <? headerSize (umMsgInfo_ p) then
          Some (true, p, [])
        else Some (true, growForBody p, [])
      end
  end.

(** The block of [readDataAvailable] guarded by [!seenFirstByte_]: the
    parser afterwards, and [false] when it makes the call return false. *)
Definition detectOnFirstByte (p : Parser) : Parser * bool :=
  if negb (seenFirstByte_ p) then
    let p := set_seenFirstByte true p in
    let p := set_protocol
               (determineProtocol X (hd x00 (IOBuf.data (readBuffer_ p)))) p in
    if is_binary (protocol_ p) then (set_outOfOrder true p, true)
    else if mc_protocol_eqb (protocol_ p) mc_ascii_protocol
    then (set_outOfOrder false p, true)
    else (p, false)
  else (p, true).

(** [readDataAvailable(len)], [bytes] being the [len] bytes the caller wrote
    into the writable tail. *)
Definition readDataAvailable (fuel : nat) (bytes : list byte) (p : Parser)
    : option (bool * Parser * list Event) :=
  let p := set_readBuffer (IOBuf.append bytes (readBuffer_ p)) p in
  if IOBuf.empty (readBuffer_ p) then Some (true, p, [])
  else
    let '(p, go) := detectOnFirstByte p in
    if negb go then Some (false, p, [])
    else if is_binary (protocol_ p) then
      match readUmbrellaOrCaretData fuel p with
      | Some (ret, p, evs) =>
        let '(p, evs') := shrinkBuffer p in
        Some (ret, p, evs ++ evs')
      | None => None
      end
    else
      let '(b, c) := handleAscii cbk (readBuffer_ p) (callback_ p) in
      Some (true, set_readBuffer b (set_callback c p),
            [EvHandleAscii (readBuffer_ p)]).

(** ** The connection owner's side *)

(** One acquire / commit / dispatch cycle: [getReadBuffer], the caller writes
    [bytes] (no more than the length it was given), [readDataAvailable]. *)
Definition feed (fuel : nat) (bytes : list byte) (p : Parser)
    : option (bool * Parser * list Event) :=
  let '(p1, max_len) := getReadBuffer p in
  if N.of_nat (List.length bytes) <=? max_len
  then readDataAvailable fuel bytes p1
  else None.

(** The chunks of a connection, one cycle each; the owner closes the
    connection at the first call that returns false. *)
Fixpoint feedAll (fuel : nat) (chunks : list (list byte)) (p : Parser)
    : option (bool * Parser * list Event) :=
  match chunks with
  | [] => Some (true, p, [])
  | c :: cs =>
    match feed fuel c p with
    | Some (true, p1, evs) =>
      match feedAll fuel cs p1 with
      | Some (r, p2, evs2) => Some (r, p2, evs ++ evs2)
      | None => None
      end
    | Some (false, p1, evs) => Some (false, p1, evs)
    | None => None
    end
  end.


(** The states a parser can be in: built by the constructor, then any
    number of [getReadBuffer] and [readDataAvailable] calls.  The flag is
    true as long as no [readDataAvailable] has returned false. *)
Inductive reachable : bool -> Parser -> Prop :=
| reach_new (c : CB) (minBufferSize maxBufferSize : N) (nodump : bool) :
    reachable true (McParser_new c minBufferSize maxBufferSize nodump)
| reach_getReadBuffer (ok : bool) (p : Parser) :
    reachable ok p -> reachable ok (fst (getReadBuffer p))
| reach_readDataAvailable (ok : bool) (p p' : Parser) (fuel : nat)
    (bytes : list byte) (ret : bool) (evs : list Event) :
    reachable ok p ->
    readDataAvailable fuel bytes p = Some (ret, p', evs) ->
    reachable (ok && ret) p'.

End Parser.

(** ** Reading a trace *)

Definition isMessage (ev : Event) : bool :=
  match ev with
  | EvUmMessageReady _ _ _ | EvCaretMessageReady _ _ _ => true
  | _ => false
  end.

(** A frame the callback took (its call returned true). *)
Definition accepted (ev : Event) : bool :=
  match ev with
  | EvUmMessageReady _ _ st | EvCaretMessageReady _ _ st => st
  | _ => false
  end.

Definition isReplaced (ev : Event) : bool :=
  match ev with EvBufferReplaced _ => true | _ => false end.



(** A frame as a message callback gets it: the protocol, the descriptor and
    the first [messageSize] bytes of the buffer it is handed. *)
Record Frame := mkFrame {
  frame_protocol : mc_protocol_t;
  frame_info : UmbrellaMessageInfo;
  frame_bytes : list byte
}.

Definition frameOf (ev : Event) : list Frame :=
  match ev with
  | EvUmMessageReady i b _ =>
    [mkFrame mc_umbrella_protocol i
       (firstn (N.to_nat (messageSizeOf i)) (IOBuf.data b))]
  | EvCaretMessageReady i b _ =>
    [mkFrame mc_caret_protocol i
       (firstn (N.to_nat (messageSizeOf i)) (IOBuf.data b))]
  | _ => []
  end.

Definition frames (evs : list Event) : list Frame := flat_map frameOf evs.

(** ** A concrete instance, used to run the definitions

    A toy wire format stands in for the header layouts, which live in the
    protocol libraries: a header is [magic; header size; body size], at least
    three bytes long. *)

Module Demo.

Definition umbrellaMagic : byte := "}"%byte.
Definition caretMagic : byte := "^"%byte.

Definition parseToy (magic : byte) (bytes : list byte)
    : UmbrellaParseStatus * UmbrellaMessageInfo :=
  match bytes with
  | m :: h :: b :: _ =>
    if Byte.eqb m magic && (3 <=? Byte.to_N h)
    then (OK, mkInfo (Byte.to_N h) (Byte.to_N b) 0 0)
    else (MESSAGE_PARSE_ERROR, mkInfo 0 0 0 0)
  | _ => (NOT_ENOUGH_DATA, mkInfo 0 0 0 0)
  end.

Definition isLetter (c : byte) : bool :=
  let n := Byte.to_N c in
  ((65 <=? n) && (n <=? 90)) || ((97 <=? n) && (n <=? 122)).

(** Modelled from the spec: the detector's table ([determineProtocol] is not
    defined in McParser.cpp): the Caret magic, the Umbrella magic or
    0x80..0x8F, an ASCII letter, and anything else is no protocol. *)
Definition detect (c : byte) : mc_protocol_t :=
  let n := Byte.to_N c in
  if Byte.eqb c caretMagic then mc_caret_protocol
  else if Byte.eqb c umbrellaMagic || ((128 <=? n) && (n <=? 143))
  then mc_umbrella_protocol
  else if isLetter c then mc_ascii_protocol
  else mc_unknown_protocol.

Definition protocolName (pr : mc_protocol_t) : string :=
  match pr with
  | mc_unknown_protocol => "unknown"
  | mc_ascii_protocol => "ascii"
  | mc_umbrella_protocol => "umbrella"
  | mc_caret_protocol => "caret"
  end.

Definition ext : Externals :=
  {| goodSize := fun n => n;
     determineProtocol := detect;
     umbrellaParseHeader := parseToy umbrellaMagic;
     caretParseHeader := parseToy caretMagic;
     mc_protocol_to_string := protocolName;
     CAN_USE_JEMALLOC_NODUMP_ALLOCATOR := false |}.

(** A callback object that counts what it is given and accepts it all. *)
Definition accepting : ParserCallback nat :=
  {| umMessageReady := fun _ _ c => (true, S c);
     caretMessageReady := fun _ _ c => (true, S c);
     handleAscii := fun b c => (IOBuf.trimStart (IOBuf.length b) b, S c);
     parseError := fun _ _ c => S c |}.

(** A frame of the toy format: three header bytes and [body]. *)
Definition frame (magic : byte) (body : list byte) : list byte :=
  magic :: "003"%byte
        :: match Byte.of_N (N.of_nat (List.length body)) with
           | Some b => b
           | None => x00
           end
        :: body.

Definition parser0 (minBufferSize maxBufferSize : N) : McParser nat :=
  McParser_new ext 0%nat minBufferSize maxBufferSize false.

Definition info0 : UmbrellaMessageInfo := mkInfo 0 0 0 0.

(** A parser in the middle of a Caret connection, [pending] unparsed. *)
Definition caretParser (bufferSize maxBufferSize capacity counter : N)
    (pending : list byte) : McParser nat :=
  mkParser 0%nat bufferSize maxBufferSize (IOBuf.mk capacity 0 pending)
    false true mc_caret_protocol true counter info0.

Definition frame40 : list byte := frame caretMagic (repeat x00 37).
Definition frame56 : list byte := frame caretMagic (repeat x01 53).
Definition frame4 : list byte := frame caretMagic [x00].

End Demo.

(** ** Vocabulary of the statements *)

Section Vocabulary.

Context {CB : Type}.
Variable cbk : ParserCallback CB.
Variable X : Externals.

Local Abbreviation Parser := (McParser CB).

Definition goodSize_ok : Prop := forall n, n <= goodSize X n.

(** The members the loop never assigns. *)
Definition sameSettings (p p' : Parser) : Prop :=
  protocol_ p' = protocol_ p /\ seenFirstByte_ p' = seenFirstByte_ p /\
  outOfOrder_ p' = outOfOrder_ p /\ maxBufferSize_ p' = maxBufferSize_ p /\
  useJemallocNodumpAllocator_ p' = useJemallocNodumpAllocator_ p.

(** How a run can end: normally; on a malformed header; on a refusal. *)
Definition closing (pr : mc_protocol_t) (ret : bool) (last : list Event) : Prop :=
  (ret = true /\ last = []) \/
  (ret = false /\
   last = [EvParseError mc_res_remote_error (parseErrorMessage X pr)]) \/
  (ret = false /\ exists ev,
      last = [ev] /\ isMessage ev = true /\ accepted ev = false).

Definition detectionInvariant (ok : bool) (p : Parser) : Prop :=
  (outOfOrder_ p = true <->
   protocol_ p = mc_umbrella_protocol \/ protocol_ p = mc_caret_protocol) /\
  (seenFirstByte_ p = false ->
   protocol_ p = mc_unknown_protocol /\ outOfOrder_ p = false) /\
  (ok = true -> seenFirstByte_ p = true -> protocol_ p <> mc_unknown_protocol).

(** [f] is one complete frame of protocol [pr], described by [i]. *)
Definition validFrame (pr : mc_protocol_t) (f : list byte)
    (i : UmbrellaMessageInfo) : Prop :=
  parseHeader X pr f = (OK, i) /\
  messageSizeOf i = N.of_nat (List.length f) /\ f <> [].

(** The message callbacks take every frame. *)
Definition acceptsAll : Prop :=
  forall pr i b c, fst (fst (messageReady cbk pr i b c)) = true.

(** Between frames: protocol known and binary, nothing pending, and a
    buffer at least as large as [bufferSize_]. *)
Definition steady (p : Parser) : Prop :=
  seenFirstByte_ p = true /\ is_binary (protocol_ p) = true /\
  IOBuf.length (readBuffer_ p) = 0 /\
  bufferSize_ p <= IOBuf.capacity (readBuffer_ p).


(** *** The byte stream read as frames

    The frames a pending byte sequence [d] holds, read off front to back
    the way the dispatcher does, with the callback object going from [c] to
    [c']: whether the reading went on to the end ([true]) or stopped on a
    bad header or a refusal ([false]), the bytes left pending, and the
    frames handed to the message callbacks. *)

Definition frameFor (pr : mc_protocol_t) (i : UmbrellaMessageInfo)
    (d : list byte) : Frame :=
  mkFrame (if mc_protocol_eqb pr mc_umbrella_protocol
           then mc_umbrella_protocol else mc_caret_protocol)
    i (firstn (N.to_nat (messageSizeOf i)) d).

(** The callback's answer to a frame, asked on a buffer that holds the
    frame and nothing else. *)
Definition answer (pr : mc_protocol_t) (i : UmbrellaMessageInfo)
    (d : list byte) (c : CB) : bool * CB :=
  fst (messageReady cbk pr i
         (IOBuf.mk 0 0 (firstn (N.to_nat (messageSizeOf i)) d)) c).

Inductive Scan (pr : mc_protocol_t)
  : list byte -> CB -> bool -> list byte -> CB -> list Frame -> Prop :=
| Scan_empty (c : CB) : Scan pr [] c true [] c []
| Scan_not_enough (d : list byte) (c : CB) (i : UmbrellaMessageInfo) :
    d <> [] -> parseHeader X pr d = (NOT_ENOUGH_DATA, i) ->
    Scan pr d c true d c []
| Scan_malformed (d : list byte) (c : CB) (i : UmbrellaMessageInfo) :
    d <> [] -> parseHeader X pr d = (MESSAGE_PARSE_ERROR, i) ->
    Scan pr d c false d
      (parseError cbk mc_res_remote_error (parseErrorMessage X pr) c) []
| Scan_wait (d : list byte) (c : CB) (i : UmbrellaMessageInfo) :
    d <> [] -> parseHeader X pr d = (OK, i) ->
    N.of_nat (List.length d) < messageSizeOf i ->
    Scan pr d c true d c []
| Scan_refuse (d : list byte) (c c' : CB) (i : UmbrellaMessageInfo) :
    d <> [] -> parseHeader X pr d = (OK, i) ->
    messageSizeOf i <= N.of_nat (List.length d) ->
    answer pr i d c = (false, c') ->
    Scan pr d c false [] c' [frameFor pr i d]
| Scan_deliver (d : list byte) (c c' : CB) (i : UmbrellaMessageInfo)
    (ret : bool) (rest : list byte) (c'' : CB) (fr : list Frame) :
    d <> [] -> parseHeader X pr d = (OK, i) ->
    messageSizeOf i <= N.of_nat (List.length d) ->
    answer pr i d c = (true, c') ->
    Scan pr (skipn (N.to_nat (messageSizeOf i)) d) c' ret rest c'' fr ->
    Scan pr d c ret rest c'' (frameFor pr i d :: fr).

(** *** What is asked of the parts McParser.cpp does not define *)

(** A header parser decides on the header bytes: what it says of a
    sequence it says of every longer one. *)
Definition headerStable : Prop :=
  forall pr d e i, parseHeader X pr d = (OK, i) ->
                   parseHeader X pr (d ++ e) = (OK, i).

Definition errorStable : Prop :=
  forall pr d e, fst (parseHeader X pr d) = MESSAGE_PARSE_ERROR ->
                 fst (parseHeader X pr (d ++ e)) = MESSAGE_PARSE_ERROR.

(** A frame is never empty. *)
Definition positiveSize : Prop :=
  forall pr d i, parseHeader X pr d = (OK, i) -> 0 < messageSizeOf i.

(** A message callback looks at the frame it is given, not at what follows
    it in the buffer nor at where the buffer lies. *)
Definition callbackLocal : Prop :=
  forall pr i b b' c,
    firstn (N.to_nat (messageSizeOf i)) (IOBuf.data b)
    = firstn (N.to_nat (messageSizeOf i)) (IOBuf.data b') ->
    fst (messageReady cbk pr i b c) = fst (messageReady cbk pr i b' c).

(** The ASCII sub-parser leaves a buffer whose regions fit its storage. *)
Definition asciiKeepsWf : Prop :=
  forall b c, IOBuf.wf b -> IOBuf.wf (fst (handleAscii cbk b c)).

(** A parser in the middle of a connection: protocol [pr] detected, [d]
    pending, callback object [c]. *)
Definition connected (pr : mc_protocol_t) (d : list byte) (c : CB)
    (p : Parser) : Prop :=
  seenFirstByte_ p = true /\ protocol_ p = pr /\
  IOBuf.data (readBuffer_ p) = d /\ callback_ p = c /\
  IOBuf.wf (readBuffer_ p) /\ 1 <= bufferSize_ p /\ 1 <= maxBufferSize_ p.

(** The parser once the first byte has named the protocol [pr]. *)
Definition detected (pr : mc_protocol_t) (p : Parser) : Parser :=
  set_outOfOrder (is_binary pr) (set_protocol pr (set_seenFirstByte true p)).

End Vocabulary.

(** ** The request context ([ProxyRequestContext])

    Only what [recordDestination], [recordShardSplitter] and
    [onReplyReceived] read.  A call yields the trace of what it touched and
    invoked; it [Fails] where the C++ trips an assertion or reads what is
    not there (the inactive member of the union, a null pointer, an empty
    [Optional]). *)

Module ProxyRequestContext.

Section Context_.

Variables AccessPoint ShardSplitter Request Reply Logger AdditionalLogger : Type.

Record RequestLoggerContext := mkLoggerContext {
  lc_poolName : string;
  lc_ap : AccessPoint;
  lc_strippedRoutingPrefix : string;
  lc_request : Request;
  lc_reply : Reply;
  lc_startTimeUs : Z;
  lc_endTimeUs : Z
}.

(** The two [std::function] members; [true] when one holds a target. *)
Record RecordingState := mkRecordingState {
  clientCallback : bool;
  shardSplitCallback : bool
}.

(** The anonymous union: [context_] or [recordingState_], the latter a
    [unique_ptr] that may be null. *)
Inductive Storage :=
| context_ (ptr : N)
| recordingState_ (st : option RecordingState).

Record t := mk {
  recording_ : bool;
  storage : Storage;
  logger_ : option Logger;
  additionalLogger_ : option AdditionalLogger
}.

Inductive Event :=
| ReadRecordingState
| ClientCallback (poolName : string) (index : N) (ap : AccessPoint)
| ShardSplitCallback (splitter : ShardSplitter)
| LoggerLog (ctx : RequestLoggerContext)
| AdditionalLoggerLog (ctx : RequestLoggerContext).

Inductive Outcome :=
| Returns (trace : list Event)
| Fails (trace : list Event).

Definition recording (c : t) : bool := recording_ c.

(** [recording_ && recordingState_->clientCallback], left to right. *)
Definition recordDestination (c : t) (poolName : string) (index : N)
    (ap : AccessPoint) : Outcome :=
  if recording_ c then
    match storage c with
    | recordingState_ (Some st) =>
      if clientCallback st
      then Returns [ReadRecordingState; ReadRecordingState;
                    ClientCallback poolName index ap]
      else Returns [ReadRecordingState]
    | recordingState_ None => Fails [ReadRecordingState]
    | context_ _ => Fails [ReadRecordingState]
    end
  else Returns [].

Definition recordShardSplitter (c : t) (splitter : ShardSplitter) : Outcome :=
  if recording_ c then
    match storage c with
    | recordingState_ (Some st) =>
      if shardSplitCallback st
      then Returns [ReadRecordingState; ReadRecordingState;
                    ShardSplitCallback splitter]
      else Returns [ReadRecordingState]
    | recordingState_ None => Fails [ReadRecordingState]
    | context_ _ => Fails [ReadRecordingState]
    end
  else Returns [].

Definition onReplyReceived (c : t) (poolName : string) (ap : AccessPoint)
    (strippedRoutingPrefix : string) (request : Request) (reply : Reply)
    (startTimeUs endTimeUs : Z) : Outcome :=
  if recording_ c then Returns []
  else
    let loggerContext :=
      mkLoggerContext poolName ap strippedRoutingPrefix request reply
        startTimeUs endTimeUs in
    match logger_ c with
    | None => Fails []
    | Some _ =>
      match additionalLogger_ c with
      | None => Fails [LoggerLog loggerContext]
      | Some _ =>
        Returns [LoggerLog loggerContext; AdditionalLoggerLog loggerContext]
      end
    end.

End Context_.

Arguments mkLoggerContext {AccessPoint Request Reply}.
Arguments mk {Logger AdditionalLogger}.
Arguments recording_ {Logger AdditionalLogger}.
Arguments storage {Logger AdditionalLogger}.
Arguments logger_ {Logger AdditionalLogger}.
Arguments additionalLogger_ {Logger AdditionalLogger}.
Arguments ReadRecordingState {AccessPoint ShardSplitter Request Reply}.
Arguments ClientCallback {AccessPoint ShardSplitter Request Reply}.
Arguments ShardSplitCallback {AccessPoint ShardSplitter Request Reply}.
Arguments LoggerLog {AccessPoint ShardSplitter Request Reply}.
Arguments AdditionalLoggerLog {AccessPoint ShardSplitter Request Reply}.
Arguments Returns {AccessPoint ShardSplitter Request Reply}.
Arguments Fails {AccessPoint ShardSplitter Request Reply}.
Arguments recording {Logger AdditionalLogger}.
Arguments recordDestination {AccessPoint ShardSplitter Request Reply Logger AdditionalLogger}.
Arguments recordShardSplitter {AccessPoint ShardSplitter Request Reply Logger AdditionalLogger}.
Arguments onReplyReceived {AccessPoint ShardSplitter Request Reply Logger AdditionalLogger}.

End ProxyRequestContext.

(** ** The dispatcher's loop as a relation

    What [readUmbrellaOrCaretData] does from a state, iteration by
    iteration, without the fuel: the value returned, the state left and the
    calls made. *)

Section Runs.

Context {CB : Type}.
Variable cbk : ParserCallback CB.
Variable X : Externals.

Local Abbreviation Parser := (McParser CB).

Inductive Run : Parser -> bool -> Parser -> list Event -> Prop :=
| Run_empty (p : Parser) :
    IOBuf.empty (readBuffer_ p) = true -> Run p true p []
| Run_not_enough (p : Parser) (info : UmbrellaMessageInfo) :
    IOBuf.empty (readBuffer_ p) = false ->
    parseHeader X (protocol_ p) (IOBuf.data (readBuffer_ p))
      = (NOT_ENOUGH_DATA, info) ->
    Run p true (set_umMsgInfo info p) []
| Run_malformed (p : Parser) (info : UmbrellaMessageInfo) :
    IOBuf.empty (readBuffer_ p) = false ->
    parseHeader X (protocol_ p) (IOBuf.data (readBuffer_ p))
      = (MESSAGE_PARSE_ERROR, info) ->
    Run p false
      (set_callback
         (parseError cbk mc_res_remote_error
            (parseErrorMessage X (protocol_ p)) (callback_ p))
         (set_umMsgInfo info p))
      [EvParseError mc_res_remote_error (parseErrorMessage X (protocol_ p))]
| Run_wait_header (p : Parser) (info : UmbrellaMessageInfo) :
    IOBuf.empty (readBuffer_ p) = false ->
    parseHeader X (protocol_ p) (IOBuf.data (readBuffer_ p)) = (OK, info) ->
    IOBuf.length (readBuffer_ p) < messageSizeOf info ->
    IOBuf.length (readBuffer_ p) < headerSize info ->
    Run p true (set_umMsgInfo info p) []
| Run_wait_body (p : Parser) (info : UmbrellaMessageInfo) :
    IOBuf.empty (readBuffer_ p) = false ->
    parseHeader X (protocol_ p) (IOBuf.data (readBuffer_ p)) = (OK, info) ->
    IOBuf.length (readBuffer_ p) < messageSizeOf info ->
    headerSize info <= IOBuf.length (readBuffer_ p) ->
    Run p true (growForBody X (set_umMsgInfo info p)) []
| Run_refused (p : Parser) (info : UmbrellaMessageInfo) (c : CB) (ev : Event) :
    IOBuf.empty (readBuffer_ p) = false ->
    parseHeader X (protocol_ p) (IOBuf.data (readBuffer_ p)) = (OK, info) ->
    messageSizeOf info <= IOBuf.length (readBuffer_ p) ->
    messageReady cbk (protocol_ p) info (readBuffer_ p) (callback_ p)
      = (false, c, ev) ->
    Run p false
      (set_readBuffer (IOBuf.clear (readBuffer_ p))
         (set_callback c (set_umMsgInfo info p)))
      [ev]
| Run_delivered (p : Parser) (info : UmbrellaMessageInfo) (c : CB) (ev : Event)
    (ret : bool) (p' : Parser) (evs : list Event) :
    IOBuf.empty (readBuffer_ p) = false ->
    parseHeader X (protocol_ p) (IOBuf.data (readBuffer_ p)) = (OK, info) ->
    messageSizeOf info <= IOBuf.length (readBuffer_ p) ->
    messageReady cbk (protocol_ p) info (readBuffer_ p) (callback_ p)
      = (true, c, ev) ->
    Run (reportMsgRead
           (set_readBuffer
              (IOBuf.trimStart (messageSizeOf info) (readBuffer_ p))
              (set_callback c (set_umMsgInfo info p))))
        ret p' evs ->
    Run p ret p' (ev :: evs).

(** A message callback said no. *)
Definition refused (ev : Event) : bool := isMessage ev && negb (accepted ev).

(** The header parsers announce frames whose size fits [size_t]. *)
Definition representableSizes : Prop :=
  forall pr d i, parseHeader X pr d = (OK, i) ->
                 headerSize i + bodySize i < size_max.

(** What a message callback is handed by a parser of protocol [pr] whose
    pending bytes were [d0] when the loop was entered: a buffer that starts
    somewhere in [d0], on a header the protocol's parser read as [info], and
    that holds the [headerSize + bodySize] bytes of the frame; and the
    callback is the protocol's own. *)
Definition wholeFrame (pr : mc_protocol_t) (d0 : list byte) (ev : Event) : Prop :=
  match ev with
  | EvUmMessageReady info b _ =>
    pr = mc_umbrella_protocol /\
    umbrellaParseHeader X (IOBuf.data b) = (OK, info) /\
    headerSize info + bodySize info <= IOBuf.length b /\
    exists k, IOBuf.data b = skipn k d0
  | EvCaretMessageReady info b _ =>
    pr <> mc_umbrella_protocol /\
    caretParseHeader X (IOBuf.data b) = (OK, info) /\
    headerSize info + bodySize info <= IOBuf.length b /\
    exists k, IOBuf.data b = skipn k d0
  | EvParseError res _ => res = mc_res_remote_error
  | EvHandleAscii _ => False
  | EvBufferReplaced _ => False
  end.

(** What holds of the buffer all along a connection: its regions fit its
    storage, [bufferSize_] stays above [low] and [maxBufferSize_] is the
    constructor's [mx]. *)
Definition bufferInvariant (low mx : N) (p : Parser) : Prop :=
  IOBuf.wf (readBuffer_ p) /\ low <= bufferSize_ p /\ maxBufferSize_ p = mx.

End Runs.

(** ** More concrete instances *)

Module Demo2.

(** A build with the no-dump allocator available. *)
Definition extNodump : Externals :=
  {| goodSize := goodSize Demo.ext;
     determineProtocol := determineProtocol Demo.ext;
     umbrellaParseHeader := umbrellaParseHeader Demo.ext;
     caretParseHeader := caretParseHeader Demo.ext;
     mc_protocol_to_string := mc_protocol_to_string Demo.ext;
     CAN_USE_JEMALLOC_NODUMP_ALLOCATOR := true |}.

(** A header parser that reads every input as a frame with no header and
    no body. *)
Definition emptyInfo : UmbrellaMessageInfo := mkInfo 0 0 0 0.

Definition extEmpty : Externals :=
  {| goodSize := goodSize Demo.ext;
     determineProtocol := determineProtocol Demo.ext;
     umbrellaParseHeader := fun _ => (OK, emptyInfo);
     caretParseHeader := fun _ => (OK, emptyInfo);
     mc_protocol_to_string := mc_protocol_to_string Demo.ext;
     CAN_USE_JEMALLOC_NODUMP_ALLOCATOR := false |}.

(** A callback object that takes its first frame and refuses the next. *)
Definition refusingSecond : ParserCallback nat :=
  {| umMessageReady := fun _ _ c => (Nat.eqb c 0, S c);
     caretMessageReady := fun _ _ c => (Nat.eqb c 0, S c);
     handleAscii := fun b c => (IOBuf.trimStart (IOBuf.length b) b, S c);
     parseError := fun _ _ c => S c |}.

(** The same parser as [Demo.caretParser] with the no-dump allocator
    asked for. *)
Definition caretParserNodump (bufferSize maxBufferSize capacity : N)
    (pending : list byte) : McParser nat :=
  mkParser 0%nat bufferSize maxBufferSize (IOBuf.mk capacity 0 pending)
    true true mc_caret_protocol true 0 Demo.info0.

Definition frameA : list byte := Demo.frame Demo.caretMagic ["a"%byte; "b"%byte].
Definition frameB : list byte := Demo.frame Demo.caretMagic ["c"%byte].

End Demo2.

(** ** Properties of the buffer and of the parser *)

Section ParserFacts.

Context {CB : Type}.
Variable cbk : ParserCallback CB.
Variable X : Externals.

Local Abbreviation Parser := (McParser CB).

Lemma append_nil (b : IOBuf.t) : IOBuf.append [] b = b.
Proof. destruct b; unfold IOBuf.append; simpl. now rewrite app_nil_r. Qed.

Lemma set_readBuffer_same (p : Parser) : set_readBuffer (readBuffer_ p) p = p.
Proof. now destruct p. Qed.

(** C10: a call that appends nothing to an empty pending region returns
    true, fires no callback and leaves the whole parser state as it was (so
    [seenFirstByte_] keeps its value and detection waits for the first byte). *)
Theorem C10_empty_read_noop (fuel : nat) (p : Parser) :
  IOBuf.length (readBuffer_ p) = 0 ->
  readDataAvailable cbk X fuel [] p = Some (true, p, []).
Proof.
  intros Hlen. unfold readDataAvailable.
  rewrite append_nil, set_readBuffer_same.
  unfold IOBuf.empty. rewrite Hlen. reflexivity.
Qed.


(** *** [getReadBuffer] *)

Lemma reserve_data (a b : N) (buf : IOBuf.t) :
  IOBuf.data (IOBuf.reserve (goodSize X) a b buf) = IOBuf.data buf.
Proof.
  unfold IOBuf.reserve.
  destruct (_ && _); [reflexivity|]. now destruct (_ <=? _).
Qed.

Lemma reserve_length (a b : N) (buf : IOBuf.t) :
  IOBuf.length (IOBuf.reserve (goodSize X) a b buf) = IOBuf.length buf.
Proof. unfold IOBuf.length. now rewrite reserve_data. Qed.

Lemma reserve_tailroom (minTail : N) (buf : IOBuf.t) :
  goodSize_ok X -> IOBuf.wf buf ->
  let r := IOBuf.reserve (goodSize X) 0 minTail buf in
  IOBuf.wf r /\ minTail <= IOBuf.tailroom r.
Proof.
  intros Hg Hwf. unfold IOBuf.reserve. cbn zeta.
  destruct ((0 <=? IOBuf.headroom buf) && (minTail <=? IOBuf.tailroom buf)) eqn:E1.
  - apply andb_prop in E1 as [_ E1]. apply N.leb_le in E1. now split.
  - destruct (0 + minTail <=? IOBuf.headroom buf + IOBuf.tailroom buf) eqn:E2.
    + apply N.leb_le in E2.
      unfold IOBuf.wf, IOBuf.tailroom, IOBuf.length in *; simpl in *. lia.
    + pose proof (Hg (IOBuf.length buf + 0 + minTail)) as Hge.
      unfold IOBuf.wf, IOBuf.tailroom, IOBuf.length in *; simpl in *. lia.
Qed.

Lemma length_zero_data (b : IOBuf.t) : IOBuf.length b = 0 -> IOBuf.data b = [].
Proof.
  unfold IOBuf.length. destruct (IOBuf.data b); [reflexivity|simpl; lia].
Qed.

(** What [getReadBuffer] does to the buffer and what it returns. *)
Lemma getReadBuffer_adjusts (p : Parser) :
  goodSize_ok X -> IOBuf.wf (readBuffer_ p) ->
  let b := readBuffer_ p in
  let p' := fst (getReadBuffer X p) in
  let b' := readBuffer_ p' in
  let max_len := snd (getReadBuffer X p) in
  p' = set_readBuffer b' p /\
  IOBuf.wf b' /\ IOBuf.data b' = IOBuf.data b /\
  match getReadBuffer_choice p with
  | AdjClear =>
      (IOBuf.length b = 0 /\ 0 < IOBuf.capacity b) /\
      b' = IOBuf.mk (IOBuf.capacity b) 0 []
  | AdjRetreat =>
      ~ (IOBuf.length b = 0 /\ 0 < IOBuf.capacity b) /\ 0 < IOBuf.headroom b /\
      b' = IOBuf.mk (IOBuf.capacity b) 0 (IOBuf.data b)
  | AdjReserve =>
      ~ (IOBuf.length b = 0 /\ 0 < IOBuf.capacity b) /\ IOBuf.headroom b = 0 /\
      b' = IOBuf.reserve (goodSize X) 0 (bufferSize_ p) b /\
      IOBuf.headroom b' = 0 /\ bufferSize_ p <= IOBuf.tailroom b'
  end /\
  max_len = N.min (IOBuf.tailroom b') (bufferSize_ p) /\
  (1 <= bufferSize_ p -> 1 <= max_len).
Proof.
  intros Hg Hwf. cbn zeta.
  unfold getReadBuffer, getReadBuffer_choice, IOBuf.unshare. cbn [fst snd].
  destruct (IOBuf.length (readBuffer_ p) =? 0) eqn:EL;
    [apply N.eqb_eq in EL | apply N.eqb_neq in EL];
  (destruct (0 <? IOBuf.capacity (readBuffer_ p)) eqn:EC;
    [apply N.ltb_lt in EC | apply N.ltb_ge in EC]); cbn [andb].
  1: { (* (a) *)
    unfold IOBuf.clear. cbn [readBuffer_ set_readBuffer].
    rewrite (length_zero_data _ EL).
    unfold IOBuf.wf, IOBuf.tailroom, IOBuf.length; cbn.
    repeat split; try lia. exact EL. }
  all: destruct (0 <? IOBuf.headroom (readBuffer_ p)) eqn:EH;
    [apply N.ltb_lt in EH | apply N.ltb_ge in EH].
  all: cbn [readBuffer_ set_readBuffer].
  all: try (rewrite reserve_data;
            destruct (reserve_tailroom (bufferSize_ p) (readBuffer_ p) Hg Hwf)
              as [Hw Ht]; cbn zeta in Hw, Ht).
  all: try (assert (Hh : IOBuf.headroom
              (IOBuf.reserve (goodSize X) 0 (bufferSize_ p) (readBuffer_ p)) = 0)
            by (unfold IOBuf.reserve; destruct (_ && _);
                [lia | now destruct (_ <=? _)])).
  all: unfold IOBuf.retreat, IOBuf.wf, IOBuf.tailroom, IOBuf.length in *;
       cbn [IOBuf.capacity IOBuf.headroom IOBuf.data] in *.
  all: repeat split; try reflexivity; try lia.
  all: try (f_equal; lia).
Qed.

(** C5 (as the code has it): [getReadBuffer] touches the read buffer only,
    by exactly one of three adjustments in priority order, none of which
    changes the pending bytes: (a) pending empty and capacity positive, the
    cursors go back to 0; (b) otherwise, with a consumed prefix, the pending
    bytes are shifted to 0; (c) otherwise the tail is reserved to hold at
    least [bufferSize_] bytes.  The length returned is
    [min(tailroom, bufferSize_)], at least 1 whenever [bufferSize_] is. *)
Theorem C5_getReadBuffer_adjustment (p : Parser) :
  goodSize_ok X -> IOBuf.wf (readBuffer_ p) ->
  let b := readBuffer_ p in
  let p' := fst (getReadBuffer X p) in
  let b' := readBuffer_ p' in
  let max_len := snd (getReadBuffer X p) in
  p' = set_readBuffer b' p /\
  IOBuf.wf b' /\ IOBuf.data b' = IOBuf.data b /\
  match getReadBuffer_choice p with
  | AdjClear =>
      (IOBuf.length b = 0 /\ 0 < IOBuf.capacity b) /\
      b' = IOBuf.mk (IOBuf.capacity b) 0 []
  | AdjRetreat =>
      ~ (IOBuf.length b = 0 /\ 0 < IOBuf.capacity b) /\ 0 < IOBuf.headroom b /\
      b' = IOBuf.mk (IOBuf.capacity b) 0 (IOBuf.data b)
  | AdjReserve =>
      ~ (IOBuf.length b = 0 /\ 0 < IOBuf.capacity b) /\ IOBuf.headroom b = 0 /\
      b' = IOBuf.reserve (goodSize X) 0 (bufferSize_ p) b /\
      IOBuf.headroom b' = 0 /\ bufferSize_ p <= IOBuf.tailroom b'
  end /\
  max_len = N.min (IOBuf.tailroom b') (bufferSize_ p) /\
  (1 <= bufferSize_ p -> 1 <= max_len).
Proof. exact (getReadBuffer_adjusts p). Qed.

(** *** [shrinkBuffer] *)

Lemma shrinkCondition_spec (p : Parser) :
  shrinkCondition p = true <->
  kAdjustBufferSizeInterval <= parsedMessages_ p /\
  maxBufferSize_ p < IOBuf.capacity (readBuffer_ p) /\
  IOBuf.length (readBuffer_ p) = 0.
Proof.
  unfold shrinkCondition.
  rewrite !andb_true_iff, N.leb_le, N.ltb_lt, N.eqb_eq. tauto.
Qed.

Lemma shrinkBuffer_no (p : Parser) :
  shrinkCondition p = false -> shrinkBuffer X p = (p, []).
Proof. unfold shrinkBuffer. now intros ->. Qed.

Lemma shrinkBuffer_yes (p : Parser) :
  shrinkCondition p = true ->
  shrinkBuffer X p =
  (mkParser (callback_ p) (N.min (bufferSize_ p) (maxBufferSize_ p))
     (maxBufferSize_ p)
     (IOBuf.create (goodSize X) (N.min (bufferSize_ p) (maxBufferSize_ p)))
     (useJemallocNodumpAllocator_ p) (seenFirstByte_ p) (protocol_ p)
     (outOfOrder_ p) 0 (umMsgInfo_ p),
   [EvBufferReplaced (N.min (bufferSize_ p) (maxBufferSize_ p))]).
Proof. unfold shrinkBuffer. now intros ->. Qed.

(** C7: in a call that runs the binary dispatcher, the read buffer is replaced
    afterwards exactly when, on the state the dispatcher left, the counter is
    at least 10,000, the capacity exceeds [maxBufferSize_] and nothing is
    pending; the replacement is a fresh buffer created for
    [min(bufferSize_, maxBufferSize_)] bytes, [bufferSize_] becomes that
    minimum and the counter 0; otherwise the state is the dispatcher's. *)
Theorem C7_shrink_after_dispatch (fuel : nat) (bytes : list byte)
    (p pd p1 : Parser) (ret : bool) (evs : list Event) :
  let p0 := set_readBuffer (IOBuf.append bytes (readBuffer_ p)) p in
  IOBuf.empty (readBuffer_ p0) = false ->
  detectOnFirstByte X p0 = (pd, true) ->
  is_binary (protocol_ pd) = true ->
  readUmbrellaOrCaretData cbk X fuel pd = Some (ret, p1, evs) ->
  let cond := kAdjustBufferSizeInterval <= parsedMessages_ p1 /\
              maxBufferSize_ p1 < IOBuf.capacity (readBuffer_ p1) /\
              IOBuf.length (readBuffer_ p1) = 0 in
  let size := N.min (bufferSize_ p1) (maxBufferSize_ p1) in
  exists p2 evs2,
    readDataAvailable cbk X fuel bytes p = Some (ret, p2, evs ++ evs2) /\
    ((cond /\ evs2 = [EvBufferReplaced size] /\
      readBuffer_ p2 = IOBuf.create (goodSize X) size /\
      bufferSize_ p2 = size /\ parsedMessages_ p2 = 0 /\
      p2 = set_readBuffer (IOBuf.create (goodSize X) size)
             (set_bufferSize size (set_parsedMessages 0 p1)))
     \/ (~ cond /\ evs2 = [] /\ p2 = p1)).
Proof.
  cbn zeta. intros Hne Hdet Hbin Hloop.
  unfold readDataAvailable. rewrite Hne, Hdet. cbn [negb]. rewrite Hbin, Hloop.
  destruct (shrinkCondition p1) eqn:E.
  - rewrite (shrinkBuffer_yes _ E). eexists _, _. split; [reflexivity|].
    left. apply shrinkCondition_spec in E. repeat split; try tauto.
  - rewrite (shrinkBuffer_no _ E). exists p1, []. split; [reflexivity|].
    right. repeat split. intros Hc. apply shrinkCondition_spec in Hc. congruence.
Qed.

(** The ASCII branch and the two early returns never replace the buffer. *)
Lemma no_shrink_outside_dispatch (fuel : nat) (bytes : list byte)
    (p p' : Parser) (ret : bool) (evs : list Event) :
  let p0 := set_readBuffer (IOBuf.append bytes (readBuffer_ p)) p in
  is_binary (protocol_ (fst (detectOnFirstByte X p0))) = false ->
  readDataAvailable cbk X fuel bytes p = Some (ret, p', evs) ->
  forall n, ~ In (EvBufferReplaced n) evs.
Proof.
  cbn zeta. intros Hb. unfold readDataAvailable.
  destruct (IOBuf.empty _); [intros [= _ _ <-] n []|].
  destruct (detectOnFirstByte X _) as [pd go]. cbn [fst] in Hb.
  destruct go; cbn [negb]; [|intros [= _ _ <-] n []].
  rewrite Hb. destruct (handleAscii _ _ _). intros [= _ _ <-] n [H|[]].
  discriminate.
Qed.

(** *** One iteration of the dispatcher's loop *)

Lemma loop_empty (fuel : nat) (p : Parser) :
  IOBuf.empty (readBuffer_ p) = true ->
  readUmbrellaOrCaretData cbk X (S fuel) p = Some (true, p, []).
Proof. intros H. cbn [readUmbrellaOrCaretData]. now rewrite H. Qed.

Lemma loop_not_enough (fuel : nat) (p : Parser) (info : UmbrellaMessageInfo) :
  IOBuf.empty (readBuffer_ p) = false ->
  parseHeader X (protocol_ p) (IOBuf.data (readBuffer_ p))
    = (NOT_ENOUGH_DATA, info) ->
  readUmbrellaOrCaretData cbk X (S fuel) p
    = Some (true, set_umMsgInfo info p, []).
Proof. intros H Hp. cbn [readUmbrellaOrCaretData]. now rewrite H, Hp. Qed.

Lemma loop_malformed (fuel : nat) (p : Parser) (info : UmbrellaMessageInfo) :
  IOBuf.empty (readBuffer_ p) = false ->
  parseHeader X (protocol_ p) (IOBuf.data (readBuffer_ p))
    = (MESSAGE_PARSE_ERROR, info) ->
  readUmbrellaOrCaretData cbk X (S fuel) p
    = Some (false,
            set_callback
              (parseError cbk mc_res_remote_error
                 (parseErrorMessage X (protocol_ p)) (callback_ p))
              (set_umMsgInfo info p),
            [EvParseError mc_res_remote_error
               (parseErrorMessage X (protocol_ p))]).
Proof. intros H Hp. cbn [readUmbrellaOrCaretData]. now rewrite H, Hp. Qed.

Lemma loop_deliver (fuel : nat) (p : Parser) (info : UmbrellaMessageInfo)
    (st : bool) (c : CB) (ev : Event) :
  IOBuf.empty (readBuffer_ p) = false ->
  parseHeader X (protocol_ p) (IOBuf.data (readBuffer_ p)) = (OK, info) ->
  messageSizeOf info <= IOBuf.length (readBuffer_ p) ->
  messageReady cbk (protocol_ p) info (readBuffer_ p) (callback_ p)
    = (st, c, ev) ->
  readUmbrellaOrCaretData cbk X (S fuel) p =
  if st then
    match readUmbrellaOrCaretData cbk X fuel
            (reportMsgRead
               (set_readBuffer
                  (IOBuf.trimStart (messageSizeOf info) (readBuffer_ p))
                  (set_callback c (set_umMsgInfo info p)))) with
    | Some (r, p', evs) => Some (r, p', ev :: evs)
    | None => None
    end
  else Some (false,
             set_readBuffer (IOBuf.clear (readBuffer_ p))
               (set_callback c (set_umMsgInfo info p)),
             [ev]).
Proof.
  intros H Hp Hsz Hcb. cbn [readUmbrellaOrCaretData]. rewrite H, Hp.
  cbn [umMsgInfo_ set_umMsgInfo readBuffer_ protocol_ callback_].
  apply N.leb_le in Hsz. rewrite Hsz, Hcb. now destruct st.
Qed.

Lemma loop_wait_header (fuel : nat) (p : Parser) (info : UmbrellaMessageInfo) :
  IOBuf.empty (readBuffer_ p) = false ->
  parseHeader X (protocol_ p) (IOBuf.data (readBuffer_ p)) = (OK, info) ->
  IOBuf.length (readBuffer_ p) < messageSizeOf info ->
  IOBuf.length (readBuffer_ p) < headerSize info ->
  readUmbrellaOrCaretData cbk X (S fuel) p
    = Some (true, set_umMsgInfo info p, []).
Proof.
  intros H Hp Hsz Hh. cbn [readUmbrellaOrCaretData]. rewrite H, Hp.
  cbn [umMsgInfo_ set_umMsgInfo readBuffer_ protocol_ callback_].
  apply N.leb_gt in Hsz. apply N.ltb_lt in Hh. now rewrite Hsz, Hh.
Qed.

Lemma loop_wait_body (fuel : nat) (p : Parser) (info : UmbrellaMessageInfo) :
  IOBuf.empty (readBuffer_ p) = false ->
  parseHeader X (protocol_ p) (IOBuf.data (readBuffer_ p)) = (OK, info) ->
  IOBuf.length (readBuffer_ p) < messageSizeOf info ->
  headerSize info <= IOBuf.length (readBuffer_ p) ->
  readUmbrellaOrCaretData cbk X (S fuel) p
    = Some (true, growForBody X (set_umMsgInfo info p), []).
Proof.
  intros H Hp Hsz Hh. cbn [readUmbrellaOrCaretData]. rewrite H, Hp.
  cbn [umMsgInfo_ set_umMsgInfo readBuffer_ protocol_ callback_].
  apply N.leb_gt in Hsz. apply N.ltb_ge in Hh. now rewrite Hsz, Hh.
Qed.

(** A frame size that fits [size_t] is the sum the code computes. *)
Lemma messageSize_fits (info : UmbrellaMessageInfo) :
  headerSize info + bodySize info < size_max ->
  messageSizeOf info = headerSize info + bodySize info.
Proof. intros H. unfold messageSizeOf. now apply N.mod_small. Qed.

(** Case 3 of the loop on a buffer too small for the frame. *)
Lemma grow_for_body (fuel : nat) (p : Parser) (info : UmbrellaMessageInfo) :
  goodSize_ok X -> IOBuf.wf (readBuffer_ p) ->
  IOBuf.empty (readBuffer_ p) = false ->
  parseHeader X (protocol_ p) (IOBuf.data (readBuffer_ p)) = (OK, info) ->
  headerSize info <= IOBuf.length (readBuffer_ p) ->
  IOBuf.length (readBuffer_ p) + IOBuf.tailroom (readBuffer_ p)
    < messageSizeOf info ->
  exists p',
    readUmbrellaOrCaretData cbk X (S fuel) p = Some (true, p', []) /\
    bufferSize_ p' = N.max (bufferSize_ p) (messageSizeOf info) /\
    IOBuf.data (readBuffer_ p') = IOBuf.data (readBuffer_ p) /\
    IOBuf.wf (readBuffer_ p') /\
    messageSizeOf info
      <= IOBuf.length (readBuffer_ p') + IOBuf.tailroom (readBuffer_ p').
Proof.
  intros Hg Hwf Hne Hp Hh Hroom.
  assert (Hlt : IOBuf.length (readBuffer_ p) < messageSizeOf info) by lia.
  rewrite (loop_wait_body fuel p info Hne Hp Hlt Hh).
  eexists. split; [reflexivity|].
  unfold growForBody.
  cbn [umMsgInfo_ set_umMsgInfo readBuffer_ bufferSize_ set_bufferSize
       set_readBuffer useJemallocNodumpAllocator_].
  apply N.ltb_lt in Hroom. rewrite Hroom.
  cbn [umMsgInfo_ set_umMsgInfo readBuffer_ bufferSize_ set_bufferSize
       set_readBuffer useJemallocNodumpAllocator_]. unfold IOBuf.unshare.
  destruct (reserve_tailroom
              (N.max (bufferSize_ p) (messageSizeOf info)
               - IOBuf.length (readBuffer_ p)) (readBuffer_ p) Hg Hwf)
    as [Hw Ht]. cbn zeta in Hw, Ht.
  destruct (CAN_USE_JEMALLOC_NODUMP_ALLOCATOR X
            && useJemallocNodumpAllocator_ p);
    cbn [umMsgInfo_ set_umMsgInfo readBuffer_ bufferSize_ set_bufferSize
         set_readBuffer].
  - unfold copyToNodumpBuffer, IOBuf.takeOwnership.
    rewrite reserve_data.
    unfold IOBuf.wf, IOBuf.tailroom, IOBuf.length in *;
      cbn [IOBuf.capacity IOBuf.headroom IOBuf.data] in *.
    repeat split; lia.
  - rewrite reserve_data, reserve_length.
    repeat split; try assumption; lia.
Qed.

(** C6: with the whole header pending ([parseHeader] says OK and the pending
    bytes cover [headerSize]) and pending plus tail room short of the frame
    size [headerSize + bodySize] (a size that fits [size_t]), the iteration
    returns true with no callback, raises [bufferSize_] to
    [max(bufferSize_, frame size)] and grows the buffer so that pending plus
    tail room covers the frame, after which the growth condition no longer
    holds; the pending bytes are kept. *)
Theorem C6_grow_for_body (fuel : nat) (p : Parser) (info : UmbrellaMessageInfo) :
  goodSize_ok X -> IOBuf.wf (readBuffer_ p) ->
  IOBuf.empty (readBuffer_ p) = false ->
  parseHeader X (protocol_ p) (IOBuf.data (readBuffer_ p)) = (OK, info) ->
  headerSize info + bodySize info < size_max ->
  headerSize info <= IOBuf.length (readBuffer_ p) ->
  IOBuf.length (readBuffer_ p) + IOBuf.tailroom (readBuffer_ p)
    < headerSize info + bodySize info ->
  let frame_size := headerSize info + bodySize info in
  exists p',
    readUmbrellaOrCaretData cbk X (S fuel) p = Some (true, p', []) /\
    bufferSize_ p' = N.max (bufferSize_ p) frame_size /\
    IOBuf.data (readBuffer_ p') = IOBuf.data (readBuffer_ p) /\
    IOBuf.wf (readBuffer_ p') /\
    frame_size
      <= IOBuf.length (readBuffer_ p') + IOBuf.tailroom (readBuffer_ p').
Proof.
  intros Hg Hwf Hne Hp Hfits Hh Hroom. cbn zeta.
  rewrite <- (messageSize_fits info Hfits) in *.
  exact (grow_for_body fuel p info Hg Hwf Hne Hp Hh Hroom).
Qed.

(** *** The shape of a dispatcher run *)

Lemma messageReady_event (pr : mc_protocol_t) (i : UmbrellaMessageInfo)
    (b : IOBuf.t) (c c' : CB) (st : bool) (ev : Event) :
  messageReady cbk pr i b c = (st, c', ev) ->
  isMessage ev = true /\ accepted ev = st /\ isReplaced ev = false.
Proof.
  unfold messageReady. destruct (mc_protocol_eqb _ _).
  - destruct (umMessageReady _ _ _ _). now intros [= <- _ <-].
  - destruct (caretMessageReady _ _ _ _). now intros [= <- _ <-].
Qed.

Lemma sameSettings_refl (p : Parser) : sameSettings p p.
Proof. now repeat split. Qed.

Lemma sameSettings_trans (p q r : Parser) :
  sameSettings p q -> sameSettings q r -> sameSettings p r.
Proof. unfold sameSettings. intuition congruence. Qed.

Lemma growForBody_settings (p : Parser) :
  sameSettings p (growForBody X p) /\
  parsedMessages_ (growForBody X p) = parsedMessages_ p /\
  callback_ (growForBody X p) = callback_ p.
Proof.
  unfold growForBody, sameSettings.
  destruct (_ <? _); destruct (_ && _); cbn; repeat split; reflexivity.
Qed.

Ltac settings := unfold sameSettings; cbn; repeat split; reflexivity.

Lemma loop_trace (fuel : nat) :
  forall (p p' : Parser) (ret : bool) (evs : list Event),
  readUmbrellaOrCaretData cbk X fuel p = Some (ret, p', evs) ->
  sameSettings p p' /\
  exists acc last,
    evs = acc ++ last /\ forallb accepted acc = true /\
    closing X (protocol_ p) ret last /\
    (parsedMessages_ p + N.of_nat (List.length acc) < size_max ->
     parsedMessages_ p' = parsedMessages_ p + N.of_nat (List.length acc)).
Proof.
  induction fuel as [|fuel IH]; intros p p' ret evs H; [discriminate|].
  cbn [readUmbrellaOrCaretData] in H.
  destruct (IOBuf.empty (readBuffer_ p)) eqn:E.
  { injection H as <- <- <-. split; [settings|].
    exists [], []. repeat split; [now left | cbn; intros; lia]. }
  destruct (parseHeader _ _ _) as [st info] eqn:Hp. destruct st.
  - cbn [umMsgInfo_ set_umMsgInfo readBuffer_ protocol_ callback_] in H.
    destruct (messageSizeOf info <=? _) eqn:Hsz.
    + destruct (messageReady _ _ _ _ _) as [[cbst c] ev] eqn:Hcb.
      apply messageReady_event in Hcb as (Hm & Ha & _).
      destruct cbst; cbn [negb] in H.
      * destruct (readUmbrellaOrCaretData _ _ fuel _) as [[[r q] es]|] eqn:Hrec;
          [|discriminate].
        injection H as <- <- <-. apply IH in Hrec as (Hs & acc & last & -> & Hacc & Hcl & Hcnt).
        split; [revert Hs; unfold sameSettings; cbn; tauto|].
        exists (ev :: acc), last. cbn [forallb app]. rewrite Ha, Hacc.
        repeat split; [exact Hcl|].
        cbn [List.length]. intros Hlt.
        unfold reportMsgRead in Hcnt.
        cbn [parsedMessages_ set_parsedMessages set_readBuffer set_callback
             set_umMsgInfo] in Hcnt.
        rewrite N.mod_small in Hcnt by lia. rewrite Hcnt; lia.
      * injection H as <- <- <-. split; [settings|].
        exists [], [ev]. repeat split; [|cbn; intros; lia].
        right; right. split; [reflexivity|]. now exists ev.
    + destruct (_ <? _); injection H as <- <- <-.
      * split; [settings|]. exists [], [].
        repeat split; [now left | cbn; intros; lia].
      * destruct (growForBody_settings (set_umMsgInfo info p)) as (Hs & Hc & _).
        split; [exact Hs|]. exists [], [].
        repeat split; [now left | cbn; intros; rewrite Hc; cbn; lia].
  - injection H as <- <- <-. split; [settings|].
    eexists [], [_]. repeat split; [|cbn; intros; lia].
    right; left. now split.
  - injection H as <- <- <-. split; [settings|].
    exists [], []. repeat split; [now left | cbn; intros; lia].
Qed.

Lemma detect_seen (p : Parser) :
  seenFirstByte_ p = true -> detectOnFirstByte X p = (p, true).
Proof. unfold detectOnFirstByte. now intros ->. Qed.

Lemma shrinkCondition_pending (p : Parser) :
  IOBuf.empty (readBuffer_ p) = false -> shrinkCondition p = false.
Proof.
  unfold shrinkCondition, IOBuf.empty. intros ->. apply andb_false_r.
Qed.

(** C3 (as the code has it): when the header parse on a non-empty pending
    region is neither OK nor NOT_ENOUGH_DATA the dispatcher calls
    [parseError] with the remote-error code and the message
    "Error parsing <proto> header" and returns false; that call is the only
    one of the iteration and ends the cycle.  Frames that stood complete
    before the bad header in the same cycle have been delivered already:
    in any run a parse error is the last event, after accepted frames. *)
Theorem C3_malformed_header (fuel : nat) (p : Parser) (info : UmbrellaMessageInfo) :
  IOBuf.empty (readBuffer_ p) = false ->
  parseHeader X (protocol_ p) (IOBuf.data (readBuffer_ p))
    = (MESSAGE_PARSE_ERROR, info) ->
  let msg := ("Error parsing " ++ mc_protocol_to_string X (protocol_ p)
              ++ " header")%string in
  exists p',
    readUmbrellaOrCaretData cbk X (S fuel) p
      = Some (false, p', [EvParseError mc_res_remote_error msg]) /\
    callback_ p' = parseError cbk mc_res_remote_error msg (callback_ p) /\
    (forall (q : Parser) (bytes : list byte),
        seenFirstByte_ q = true -> is_binary (protocol_ q) = true ->
        set_readBuffer (IOBuf.append bytes (readBuffer_ q)) q = p ->
        readDataAvailable cbk X (S fuel) bytes q
          = Some (false, p', [EvParseError mc_res_remote_error msg])) /\
    (forall (n : nat) (q q' : Parser) (ret : bool) (evs : list Event)
            (res : mc_res_t) (m : string),
        readUmbrellaOrCaretData cbk X n q = Some (ret, q', evs) ->
        In (EvParseError res m) evs ->
        ret = false /\
        exists acc, evs = acc ++ [EvParseError mc_res_remote_error
                                    (parseErrorMessage X (protocol_ q))] /\
                    forallb accepted acc = true).
Proof.
  intros Hne Hp. cbn zeta.
  change ("Error parsing " ++ mc_protocol_to_string X (protocol_ p) ++ " header")%string
    with (parseErrorMessage X (protocol_ p)).
  eexists. split; [exact (loop_malformed fuel p info Hne Hp)|].
  split; [reflexivity|]. split.
  - intros q bytes Hseen Hbin Hq. unfold readDataAvailable. rewrite Hq, Hne.
    rewrite (detect_seen p) by (now rewrite <- Hq). cbn [negb].
    replace (is_binary (protocol_ p)) with true by (now rewrite <- Hq).
    rewrite (loop_malformed fuel p info Hne Hp).
    rewrite shrinkBuffer_no by (now apply shrinkCondition_pending).
    reflexivity.
  - intros n q q' ret evs res m Hrun Hin.
    apply loop_trace in Hrun as (_ & acc & last & -> & Hacc & Hcl & _).
    assert (Hnot : ~ In (EvParseError res m) acc).
    { intros Hi. rewrite forallb_forall in Hacc. now apply Hacc in Hi. }
    apply in_app_or in Hin as [Hi|Hi]; [contradiction|].
    destruct Hcl as [[_ ->]|[[-> ->]|[_ (ev & -> & Hm & _)]]].
    + destruct Hi.
    + split; [reflexivity|]. now exists acc.
    + destruct Hi as [E|[]]. subst ev. discriminate.
Qed.




(** *** Protocol detection and the reachable states *)

Lemma is_binary_spec (pr : mc_protocol_t) :
  is_binary pr = true <-> pr = mc_umbrella_protocol \/ pr = mc_caret_protocol.
Proof. destruct pr; cbn; intuition discriminate. Qed.

Lemma detectionInvariant_settings (ok : bool) (p p' : Parser) :
  sameSettings p p' -> detectionInvariant ok p -> detectionInvariant ok p'.
Proof.
  unfold sameSettings, detectionInvariant.
  intros (-> & -> & -> & _). tauto.
Qed.

Lemma detect_invariant (ok : bool) (p pd : Parser) (go : bool) :
  detectionInvariant ok p -> detectOnFirstByte X p = (pd, go) ->
  detectionInvariant (ok && go) pd.
Proof.
  unfold detectOnFirstByte. intros (Ho & Hu & Hk).
  destruct (seenFirstByte_ p) eqn:Es; cbn [negb].
  - intros [= <- <-]. rewrite andb_true_r. repeat split; try tauto.
    + intros; congruence.
    + intros; congruence.
  - destruct (Hu eq_refl) as [Hpr Hoo].
    cbn [protocol_ set_protocol set_seenFirstByte readBuffer_].
    destruct (determineProtocol X _) eqn:Ed; cbn [is_binary mc_protocol_eqb orb];
      intros [= <- <-]; unfold detectionInvariant; cbn; rewrite ?andb_false_r;
      repeat split; try discriminate; try tauto; try congruence;
      try (intros [?|?]; discriminate); try (intros; intuition discriminate).
Qed.

Lemma shrinkBuffer_settings (p : Parser) :
  sameSettings p (fst (shrinkBuffer X p)).
Proof. unfold shrinkBuffer. destruct (shrinkCondition p); settings. Qed.

Lemma readDataAvailable_invariant (ok : bool) (fuel : nat) (bytes : list byte)
    (p p' : Parser) (ret : bool) (evs : list Event) :
  detectionInvariant ok p ->
  readDataAvailable cbk X fuel bytes p = Some (ret, p', evs) ->
  detectionInvariant (ok && ret) p'.
Proof.
  intros Hinv. unfold readDataAvailable.
  set (p0 := set_readBuffer _ p).
  assert (H0 : detectionInvariant ok p0)
    by (apply (detectionInvariant_settings ok p); [settings | exact Hinv]).
  destruct (IOBuf.empty _).
  { intros [= <- <- _]. now rewrite andb_true_r. }
  destruct (detectOnFirstByte X p0) as [pd go] eqn:Ed.
  pose proof (detect_invariant ok p0 pd go H0 Ed) as Hd.
  destruct go; cbn [negb]; [|intros [= <- <- _]; exact Hd].
  rewrite andb_true_r in Hd.
  destruct (is_binary (protocol_ pd)).
  - destruct (readUmbrellaOrCaretData _ _ _ _) as [[[r q] es]|] eqn:Hrun;
      [|discriminate].
    pose proof (shrinkBuffer_settings q) as Hs.
    destruct (shrinkBuffer X q) as [q2 es2]. cbn [fst] in Hs.
    intros [= <- <- _]. apply loop_trace in Hrun as (Hl & _).
    apply (detectionInvariant_settings _ pd);
      [exact (sameSettings_trans _ _ _ Hl Hs)|].
    destruct Hd as (A & B & C). repeat split; try tauto.
    intros Hk. apply andb_prop in Hk as [-> _]. exact (C eq_refl).
  - destruct (handleAscii _ _ _) as [b c]. intros [= <- <- _].
    rewrite andb_true_r.
    apply (detectionInvariant_settings _ pd); [settings | exact Hd].
Qed.

(** C4 (as the code has it): in every reachable state [outOfOrder_] is true
    exactly when the protocol is Umbrella or Caret; and as long as no
    [readDataAvailable] has returned false, [seenFirstByte_] true implies a
    protocol other than Unknown. *)
Theorem C4_detection_invariant (ok : bool) (p : Parser) :
  reachable cbk X ok p ->
  (outOfOrder_ p = true <->
   protocol_ p = mc_umbrella_protocol \/ protocol_ p = mc_caret_protocol) /\
  (ok = true -> seenFirstByte_ p = true -> protocol_ p <> mc_unknown_protocol).
Proof.
  intros Hr.
  enough (H : detectionInvariant ok p) by (destruct H as (A & _ & C); now split).
  induction Hr as [c mn mx nd | ok p Hr IH | ok p p' fuel bytes ret evs Hr IH Hrun].
  - unfold detectionInvariant; cbn. repeat split; try discriminate.
    intros [H|H]; discriminate.
  - apply (detectionInvariant_settings ok p); [|exact IH].
    unfold getReadBuffer. settings.
  - exact (readDataAvailable_invariant ok fuel bytes p p' ret evs IH Hrun).
Qed.

(** *** Whole frames *)



Lemma empty_false_data (b : IOBuf.t) :
  IOBuf.data b <> [] -> IOBuf.empty b = false.
Proof.
  unfold IOBuf.empty, IOBuf.length. destruct (IOBuf.data b); [congruence|].
  intros _. apply N.eqb_neq. cbn [List.length]. lia.
Qed.

Lemma empty_true_data (b : IOBuf.t) :
  IOBuf.data b = [] -> IOBuf.empty b = true.
Proof. unfold IOBuf.empty, IOBuf.length. now intros ->. Qed.

Lemma skipn_frame (f rest : list byte) :
  skipn (N.to_nat (N.of_nat (List.length f))) (f ++ rest) = rest.
Proof.
  rewrite Nat2N.id, skipn_app, skipn_all, Nat.sub_diag. reflexivity.
Qed.


(** *** One whole frame per cycle *)

Lemma one_frame_cycle (p : Parser) (f : list byte) (i : UmbrellaMessageInfo) :
  acceptsAll cbk -> steady p -> validFrame X (protocol_ p) f i ->
  N.of_nat (List.length f) <= bufferSize_ p ->
  exists q ev,
    feed cbk X 2 f p
      = Some (true, fst (shrinkBuffer X q), ev :: snd (shrinkBuffer X q)) /\
    isReplaced ev = false /\ accepted ev = true /\
    sameSettings p q /\ bufferSize_ q = bufferSize_ p /\
    IOBuf.capacity (readBuffer_ q) = IOBuf.capacity (readBuffer_ p) /\
    IOBuf.length (readBuffer_ q) = 0 /\
    parsedMessages_ q = (parsedMessages_ p + 1) mod size_max.
Proof.
  intros Hacc (Hseen & Hbin & Hlen & Hcap) (Hparse & Hsize & Hne) Hfit.
  assert (Hpos : 0 < N.of_nat (List.length f))
    by (destruct f; [congruence | cbn [List.length]; lia]).
  unfold feed, getReadBuffer, IOBuf.unshare.
  rewrite Hlen, N.eqb_refl.
  replace (0 <? IOBuf.capacity (readBuffer_ p)) with true
    by (symmetry; apply N.ltb_lt; lia).
  cbn [andb].
  replace (N.of_nat (List.length f)
           <=? N.min (IOBuf.tailroom (IOBuf.clear (readBuffer_ p))) (bufferSize_ p))
    with true
    by (symmetry; apply N.leb_le; unfold IOBuf.tailroom, IOBuf.length; cbn; lia).
  set (p1 := set_readBuffer (IOBuf.clear (readBuffer_ p)) p).
  unfold readDataAvailable.
  set (p0 := set_readBuffer (IOBuf.append f (readBuffer_ p1)) p1).
  assert (Hd0 : IOBuf.data (readBuffer_ p0) = f) by reflexivity.
  assert (Hne0 : IOBuf.empty (readBuffer_ p0) = false)
    by (apply empty_false_data; rewrite Hd0; exact Hne).
  rewrite Hne0, (detect_seen p0) by exact Hseen. cbn [negb].
  replace (is_binary (protocol_ p0)) with true by (symmetry; exact Hbin).
  destruct (messageReady cbk (protocol_ p0) i (readBuffer_ p0) (callback_ p0))
    as [[st c] ev] eqn:Hcb.
  pose proof (Hacc (protocol_ p0) i (readBuffer_ p0) (callback_ p0)) as Hst.
  rewrite Hcb in Hst. cbn [fst] in Hst. subst st.
  rewrite (loop_deliver 1 p0 i true c ev Hne0); cycle 1.
  { rewrite Hd0. exact Hparse. }
  { rewrite Hsize. unfold IOBuf.length. rewrite Hd0. lia. }
  { exact Hcb. }
  set (q := reportMsgRead _).
  rewrite (loop_empty 0 q); cycle 1.
  { apply empty_true_data. unfold q, p0, p1. cbn. rewrite Hsize.
    rewrite <- (app_nil_r f) at 2. apply skipn_frame. }
  apply messageReady_event in Hcb as (_ & Ha & Hr).
  exists q, ev. destruct (shrinkBuffer X q) as [q2 es]. cbn [fst snd app].
  repeat split; try assumption; try reflexivity.
  unfold q, p0, p1, IOBuf.length. cbn. rewrite Hsize.
  rewrite <- (app_nil_r f) at 2. now rewrite skipn_frame.
Qed.








(** Whatever the allocator, a parser whose [bufferSize_] is 0 offers no
    room to write. *)
Lemma max_len_zero (p : Parser) :
  bufferSize_ p = 0 -> snd (getReadBuffer X p) = 0.
Proof.
  intros H. unfold getReadBuffer. cbn [snd]. rewrite H. apply N.min_0_r.
Qed.

(** *** Frames of a byte stream *)

Lemma firstn_within (n : nat) (d e : list byte) :
  (n <= List.length d)%nat -> firstn n (d ++ e) = firstn n d.
Proof.
  intros H. rewrite firstn_app.
  replace (n - List.length d)%nat with 0%nat by lia.
  cbn [firstn]. apply app_nil_r.
Qed.

Lemma skipn_within (n : nat) (d e : list byte) :
  (n <= List.length d)%nat -> skipn n (d ++ e) = skipn n d ++ e.
Proof.
  intros H. rewrite skipn_app.
  replace (n - List.length d)%nat with 0%nat by lia. reflexivity.
Qed.

Lemma answer_within (pr : mc_protocol_t) (i : UmbrellaMessageInfo)
    (d e : list byte) (c : CB) :
  messageSizeOf i <= N.of_nat (List.length d) ->
  answer cbk pr i (d ++ e) c = answer cbk pr i d c /\
  frameFor pr i (d ++ e) = frameFor pr i d.
Proof.
  intros H. unfold answer, frameFor. now rewrite firstn_within by lia.
Qed.

Lemma app_not_nil (d e : list byte) : d <> [] -> d ++ e <> [].
Proof. destruct d; [congruence | discriminate]. Qed.


Lemma Scan_total (pr : mc_protocol_t) :
  positiveSize X ->
  forall (n : nat) (d : list byte) (c : CB),
  (List.length d <= n)%nat ->
  exists ret rest c' fr, Scan cbk X pr d c ret rest c' fr.
Proof.
  intros Hpos n.
  induction n as [|n IH]; intros d c Hn.
  - destruct d; [|cbn in Hn; lia]. exists true, [], c, []. constructor.
  - destruct d as [|b d']; [exists true, [], c, []; constructor|].
    set (d := b :: d') in *. assert (Hne : d <> []) by discriminate.
    destruct (parseHeader X pr d) as [st i] eqn:Hp. destruct st.
    + destruct (N.lt_ge_cases (N.of_nat (List.length d)) (messageSizeOf i))
        as [Hlt|Hle].
      * exists true, d, c, []. now apply (Scan_wait _ _ _ d c i).
      * destruct (answer cbk pr i d c) as [st c'] eqn:Ha. destruct st.
        -- pose proof (Hpos _ _ _ Hp) as Hm.
           destruct (IH (skipn (N.to_nat (messageSizeOf i)) d) c')
             as (ret & rest & c'' & fr & Hs).
           { rewrite length_skipn. subst d. cbn [List.length] in *. lia. }
           exists ret, rest, c'', (frameFor pr i d :: fr).
           now apply (Scan_deliver _ _ _ d c c' i).
        -- exists false, [], c', [frameFor pr i d].
           now apply (Scan_refuse _ _ _ d c c' i).
    + eexists false, d, _, []. now apply (Scan_malformed _ _ _ d c i).
    + exists true, d, c, []. now apply (Scan_not_enough _ _ _ d c i).
Qed.

Lemma Scan_waiting (pr : mc_protocol_t) (d rest : list byte) (c c' : CB)
    (ret : bool) (fr : list Frame) :
  Scan cbk X pr d c ret rest c' fr -> ret = true ->
  Scan cbk X pr rest c' true rest c' [].
Proof.
  intros H.
  induction H as [c | d c i Hne Hp | d c i Hne Hp | d c i Hne Hp Hlt
                  | d c c' i Hne Hp Hle Ha
                  | d c c' i ret rest c'' fr Hne Hp Hle Ha Hs IH];
    intros Hr; try discriminate.
  - constructor.
  - now apply (Scan_not_enough _ _ _ d c i).
  - now apply (Scan_wait _ _ _ d c i).
  - exact (IH Hr).
Qed.

Lemma Scan_extend (pr : mc_protocol_t) (d rest : list byte) (c c1 : CB)
    (r1 : bool) (fr1 : list Frame) :
  headerStable X ->
  Scan cbk X pr d c r1 rest c1 fr1 -> r1 = true ->
  forall e ret rest' c' fr2,
  Scan cbk X pr (rest ++ e) c1 ret rest' c' fr2 ->
  Scan cbk X pr (d ++ e) c ret rest' c' (fr1 ++ fr2).
Proof.
  intros Hst H.
  induction H as [c | d c i Hne Hp | d c i Hne Hp | d c i Hne Hp Hlt
                  | d c c' i Hne Hp Hle Ha
                  | d c c' i ret0 rest c'' fr Hne Hp Hle Ha Hs IH];
    intros Hr e ret rest' cf fr2 H2; try discriminate; try exact H2.
  cbn [app].
  destruct (answer_within pr i d e c Hle) as [Ha' Hf']. rewrite <- Hf'.
  apply (Scan_deliver _ _ _ (d ++ e) c c' i).
  - now apply app_not_nil.
  - now apply Hst.
  - rewrite length_app. lia.
  - now rewrite Ha'.
  - rewrite skipn_within by lia. now apply IH.
Qed.

Lemma Scan_stopped (pr : mc_protocol_t) (d rest : list byte) (c c1 : CB)
    (r1 : bool) (fr : list Frame) :
  headerStable X -> errorStable X ->
  Scan cbk X pr d c r1 rest c1 fr -> r1 = false ->
  forall e, exists rest', Scan cbk X pr (d ++ e) c false rest' c1 fr.
Proof.
  intros Hst Her H.
  induction H as [c | d c i Hne Hp | d c i Hne Hp | d c i Hne Hp Hlt
                  | d c c' i Hne Hp Hle Ha
                  | d c c' i ret0 rest c'' fr Hne Hp Hle Ha Hs IH];
    intros Hr e; try discriminate.
  - exists (d ++ e).
    pose proof (Her pr d e) as He. rewrite Hp in He. specialize (He eq_refl).
    destruct (parseHeader X pr (d ++ e)) as [st i'] eqn:Hp'. cbn in He. subst st.
    apply (Scan_malformed _ _ _ (d ++ e) c i'); [now apply app_not_nil | exact Hp'].
  - exists []. destruct (answer_within pr i d e c Hle) as [Ha' Hf']. rewrite <- Hf'.
    apply (Scan_refuse _ _ _ (d ++ e) c c' i).
    + now apply app_not_nil.
    + now apply Hst.
    + rewrite length_app. lia.
    + now rewrite Ha'.
  - destruct (IH Hr e) as (rest' & Hs').
    exists rest'. destruct (answer_within pr i d e c Hle) as [Ha' Hf'].
    rewrite <- Hf'.
    apply (Scan_deliver _ _ _ (d ++ e) c c' i).
    + now apply app_not_nil.
    + now apply Hst.
    + rewrite length_app. lia.
    + now rewrite Ha'.
    + rewrite skipn_within by lia. exact Hs'.
Qed.

(** *** The dispatcher reads the stream *)

Lemma messageReady_frame (pr : mc_protocol_t) (i : UmbrellaMessageInfo)
    (b : IOBuf.t) (c c' : CB) (st : bool) (ev : Event) :
  messageReady cbk pr i b c = (st, c', ev) ->
  frameOf ev = [frameFor pr i (IOBuf.data b)].
Proof.
  unfold messageReady, frameFor. destruct (mc_protocol_eqb _ _).
  - destruct (umMessageReady _ _ _ _). now intros [= _ _ <-].
  - destruct (caretMessageReady _ _ _ _). now intros [= _ _ <-].
Qed.

Lemma answer_on_buffer (pr : mc_protocol_t) (i : UmbrellaMessageInfo)
    (b : IOBuf.t) (c c' : CB) (st : bool) :
  callbackLocal cbk ->
  answer cbk pr i (IOBuf.data b) c = (st, c') ->
  exists ev, messageReady cbk pr i b c = (st, c', ev).
Proof.
  intros Hloc. unfold answer. intros Ha.
  rewrite <- (Hloc pr i b _ c) in Ha.
  - destruct (messageReady cbk pr i b c) as [[st0 c0] ev]. cbn [fst] in Ha.
    injection Ha as -> ->. now exists ev.
  - cbn [IOBuf.data]. rewrite firstn_firstn. now rewrite Nat.min_id.
Qed.

Lemma growForBody_buffer (p : Parser) :
  goodSize_ok X -> IOBuf.wf (readBuffer_ p) ->
  IOBuf.length (readBuffer_ p) < messageSizeOf (umMsgInfo_ p) ->
  IOBuf.wf (readBuffer_ (growForBody X p)) /\
  IOBuf.data (readBuffer_ (growForBody X p)) = IOBuf.data (readBuffer_ p) /\
  bufferSize_ p <= bufferSize_ (growForBody X p).
Proof.
  intros Hg Hwf Hlt. unfold growForBody, IOBuf.unshare.
  set (m := messageSizeOf (umMsgInfo_ p)) in *.
  destruct (reserve_tailroom (N.max (bufferSize_ p) m - IOBuf.length (readBuffer_ p))
              (readBuffer_ p) Hg Hwf) as [Hw _]. cbn zeta in Hw.
  destruct (_ <? m);
    cbn [umMsgInfo_ set_umMsgInfo readBuffer_ bufferSize_ set_bufferSize
         set_readBuffer useJemallocNodumpAllocator_];
    destruct (_ && _);
    cbn [umMsgInfo_ set_umMsgInfo readBuffer_ bufferSize_ set_bufferSize
         set_readBuffer useJemallocNodumpAllocator_];
    unfold copyToNodumpBuffer, IOBuf.takeOwnership;
    rewrite ?reserve_data; fold m;
    unfold IOBuf.wf, IOBuf.length in *;
    cbn [IOBuf.capacity IOBuf.headroom IOBuf.data] in *;
    repeat split; try assumption; try lia.
Qed.

Lemma trimStart_wf (n : N) (b : IOBuf.t) :
  IOBuf.wf b -> n <= IOBuf.length b -> IOBuf.wf (IOBuf.trimStart n b).
Proof.
  unfold IOBuf.wf, IOBuf.trimStart, IOBuf.length.
  cbn [IOBuf.capacity IOBuf.headroom IOBuf.data].
  intros Hwf Hn. rewrite length_skipn. lia.
Qed.

Ltac finish :=
  repeat split;
  first [ assumption | reflexivity | intros _; assumption | discriminate
        | cbn; congruence | cbn; lia
        | unfold IOBuf.wf, IOBuf.length; cbn; lia | idtac ].

Lemma loop_scans (pr : mc_protocol_t) (d rest : list byte) (c c' : CB)
    (ret : bool) (fr : list Frame) :
  goodSize_ok X -> callbackLocal cbk ->
  Scan cbk X pr d c ret rest c' fr ->
  forall (fuel : nat) (p : Parser),
  (List.length fr < fuel)%nat ->
  protocol_ p = pr -> IOBuf.data (readBuffer_ p) = d -> callback_ p = c ->
  IOBuf.wf (readBuffer_ p) ->
  exists p' evs,
    readUmbrellaOrCaretData cbk X fuel p = Some (ret, p', evs) /\
    frames evs = fr /\ callback_ p' = c' /\
    (ret = true -> IOBuf.data (readBuffer_ p') = rest) /\
    IOBuf.wf (readBuffer_ p') /\ sameSettings p p' /\
    bufferSize_ p <= bufferSize_ p'.
Proof.
  intros Hg Hloc H.
  induction H as [c | d c i Hne Hp | d c i Hne Hp | d c i Hne Hp Hlt
                  | d c c' i Hne Hp Hle Ha
                  | d c c' i ret rest c'' fr Hne Hp Hle Ha Hs IH];
    intros fuel p Hfuel Hpr Hd Hc Hwf;
    (destruct fuel as [|fuel]; [cbn in Hfuel; lia|]).
  - rewrite loop_empty by (now apply empty_true_data).
    exists p, []. finish.
  - rewrite (loop_not_enough fuel p i)
      by (try (apply empty_false_data); congruence).
    eexists _, []. split; [reflexivity|].
    finish.
  - rewrite (loop_malformed fuel p i)
      by (try (apply empty_false_data); congruence).
    eexists _, _. split; [reflexivity|].
    finish.
  - assert (Hne' : IOBuf.empty (readBuffer_ p) = false)
      by (apply empty_false_data; congruence).
    assert (Hp' : parseHeader X (protocol_ p) (IOBuf.data (readBuffer_ p)) = (OK, i))
      by congruence.
    assert (Hlt' : IOBuf.length (readBuffer_ p) < messageSizeOf i)
      by (unfold IOBuf.length; now rewrite Hd).
    destruct (N.lt_ge_cases (IOBuf.length (readBuffer_ p)) (headerSize i)) as [Hh|Hh].
    + rewrite (loop_wait_header fuel p i Hne' Hp' Hlt' Hh).
      eexists _, []. split; [reflexivity|].
      finish.
    + rewrite (loop_wait_body fuel p i Hne' Hp' Hlt' Hh).
      eexists _, []. split; [reflexivity|].
      destruct (growForBody_buffer (set_umMsgInfo i p) Hg Hwf Hlt') as (W & D & B).
      destruct (growForBody_settings (set_umMsgInfo i p)) as (S & _ & C).
      repeat split; try assumption; try apply S.
      * rewrite C. exact Hc.
      * intros _. rewrite D. exact Hd.
  - assert (Hne' : IOBuf.empty (readBuffer_ p) = false)
      by (apply empty_false_data; congruence).
    assert (Hp' : parseHeader X (protocol_ p) (IOBuf.data (readBuffer_ p)) = (OK, i))
      by congruence.
    assert (Hle' : messageSizeOf i <= IOBuf.length (readBuffer_ p))
      by (unfold IOBuf.length; now rewrite Hd).
    rewrite <- Hd, <- Hc, <- Hpr in Ha.
    destruct (answer_on_buffer _ i (readBuffer_ p) _ c' false Hloc Ha) as [ev Hev].
    rewrite (loop_deliver fuel p i false c' ev Hne' Hp' Hle' Hev).
    eexists _, _. split; [reflexivity|].
    cbn [frames flat_map]. rewrite (messageReady_frame _ _ _ _ _ _ _ Hev), Hd, Hpr.
    finish.
  - assert (Hne' : IOBuf.empty (readBuffer_ p) = false)
      by (apply empty_false_data; congruence).
    assert (Hp' : parseHeader X (protocol_ p) (IOBuf.data (readBuffer_ p)) = (OK, i))
      by congruence.
    assert (Hle' : messageSizeOf i <= IOBuf.length (readBuffer_ p))
      by (unfold IOBuf.length; now rewrite Hd).
    rewrite <- Hd, <- Hc, <- Hpr in Ha.
    destruct (answer_on_buffer _ i (readBuffer_ p) _ c' true Hloc Ha) as [ev Hev].
    rewrite (loop_deliver fuel p i true c' ev Hne' Hp' Hle' Hev).
    set (q := reportMsgRead _).
    destruct (IH fuel q) as (p' & evs & Hrun & Hfr & Hcb & Hrest & Hw & Hs' & Hb).
    + cbn [List.length] in Hfuel. lia.
    + exact Hpr.
    + unfold q. cbn. now rewrite Hd.
    + reflexivity.
    + unfold q. cbn [readBuffer_ reportMsgRead set_parsedMessages set_readBuffer].
      now apply trimStart_wf.
    + rewrite Hrun. exists p', (ev :: evs). split; [reflexivity|].
      cbn [frames flat_map]. fold (frames evs).
      rewrite (messageReady_frame _ _ _ _ _ _ _ Hev), Hd, Hpr, Hfr.
      repeat split; try assumption; try (revert Hs'; unfold sameSettings; cbn; tauto).
Qed.


Lemma frames_app (a b : list Event) : frames (a ++ b) = frames a ++ frames b.
Proof. unfold frames. apply flat_map_app. Qed.

Lemma shrinkBuffer_frames (p : Parser) : frames (snd (shrinkBuffer X p)) = [].
Proof. unfold shrinkBuffer. now destruct (shrinkCondition p). Qed.

(** One cycle of a connected binary parser reads what is pending together
    with what the cycle brings. *)
Lemma cycle_scans (pr : mc_protocol_t) (d x rest : list byte) (c c' : CB)
    (ret : bool) (fr : list Frame) (p : Parser) (fuel : nat) :
  goodSize_ok X -> callbackLocal cbk -> is_binary pr = true ->
  connected pr d c p -> d ++ x <> [] ->
  N.of_nat (List.length x) <= snd (getReadBuffer X p) ->
  Scan cbk X pr (d ++ x) c ret rest c' fr -> (List.length fr < fuel)%nat ->
  exists p' evs,
    feed cbk X fuel x p = Some (ret, p', evs) /\ frames evs = fr /\
    (ret = true -> connected pr rest c' p').
Proof.
  intros Hg Hloc Hbin (Hseen & Hpr & Hd & Hc & Hwf & Hb1 & Hm1) Hne Hfit Hs Hfuel.
  destruct (getReadBuffer_adjusts p Hg Hwf) as (Hp1 & Hwf1 & Hd1 & _ & Hmax & _).
  cbn zeta in Hp1, Hwf1, Hd1, Hmax.
  unfold feed. destruct (getReadBuffer X p) as [p1 max_len].
  cbn [fst snd] in *.
  replace (N.of_nat (List.length x) <=? max_len) with true
    by (symmetry; now apply N.leb_le).
  unfold readDataAvailable.
  set (p2 := set_readBuffer (IOBuf.append x (readBuffer_ p1)) p1).
  assert (Hd2 : IOBuf.data (readBuffer_ p2) = d ++ x).
  { unfold p2. cbn. now rewrite Hd1, Hd. }
  assert (Hwf2 : IOBuf.wf (readBuffer_ p2)).
  { unfold p2. cbn [readBuffer_ set_readBuffer].
    unfold IOBuf.wf, IOBuf.append, IOBuf.tailroom, IOBuf.length in *.
    cbn [IOBuf.capacity IOBuf.headroom IOBuf.data] in *.
    rewrite length_app. lia. }
  assert (Hset1 : sameSettings p p1) by (rewrite Hp1; settings).
  assert (Hset2 : sameSettings p p2) by exact Hset1.
  assert (Hb2 : bufferSize_ p2 = bufferSize_ p)
    by (change (bufferSize_ p1 = bufferSize_ p); rewrite Hp1; reflexivity).
  assert (Hc2 : callback_ p2 = c)
    by (change (callback_ p1 = c); rewrite Hp1; exact Hc).
  destruct Hset2 as (Spr & Sseen & _ & Smax & _).
  rewrite (empty_false_data (readBuffer_ p2)) by (now rewrite Hd2).
  rewrite (detect_seen p2) by congruence. cbn [negb].
  replace (is_binary (protocol_ p2)) with true by (rewrite Spr, Hpr; now symmetry).
  destruct (loop_scans pr (d ++ x) rest c c' ret fr Hg Hloc Hs fuel p2 Hfuel)
    as (p3 & evs & Hrun & Hfr & Hcb & Hrest & Hwf3 & Hs3 & Hb3); try congruence.
  rewrite Hrun.
  pose proof (shrinkBuffer_frames p3) as Hsf.
  destruct Hs3 as (Tpr & Tseen & _ & Tmax & _).
  destruct (shrinkCondition p3) eqn:Hcond.
  - rewrite (shrinkBuffer_yes _ Hcond) in Hsf |- *. cbn [snd] in Hsf.
    eexists _, _. split; [reflexivity|].
    rewrite frames_app, Hsf, app_nil_r. split; [exact Hfr|].
    intros Hret. apply shrinkCondition_spec in Hcond as (_ & _ & Hl0).
    unfold connected.
    cbn [seenFirstByte_ protocol_ readBuffer_ callback_ bufferSize_
         maxBufferSize_ IOBuf.create IOBuf.data].
    rewrite <- (Hrest Hret), (length_zero_data _ Hl0).
    repeat split;
      first [ congruence | lia | unfold IOBuf.wf, IOBuf.length; cbn; lia ].
  - rewrite (shrinkBuffer_no _ Hcond). eexists _, _. split; [reflexivity|].
    rewrite app_nil_r. split; [exact Hfr|].
    intros Hret. unfold connected.
    repeat split; try congruence; try lia. now apply Hrest.
Qed.




(** *** The first cycle of a connection *)

Lemma detect_first (p : Parser) (b : byte) :
  seenFirstByte_ p = false -> hd x00 (IOBuf.data (readBuffer_ p)) = b ->
  detectOnFirstByte X p =
  let pr := determineProtocol X b in
  if is_binary pr || mc_protocol_eqb pr mc_ascii_protocol
  then (detected pr p, true)
  else (set_protocol pr (set_seenFirstByte true p), false).
Proof.
  intros Hs Hb. unfold detectOnFirstByte, detected. rewrite Hs. cbn [negb].
  cbn [readBuffer_ set_seenFirstByte set_protocol protocol_]. rewrite Hb.
  cbn zeta. now destruct (determineProtocol X b).
Qed.





(** *** The loop ends *)

Lemma loop_fuel_mono (n : nat) :
  forall (p : Parser) (r : bool * Parser * list Event) (m : nat),
  readUmbrellaOrCaretData cbk X n p = Some r -> (n <= m)%nat ->
  readUmbrellaOrCaretData cbk X m p = Some r.
Proof.
  induction n as [|n IH]; intros p r m H Hle; [discriminate|].
  destruct m as [|m]; [lia|].
  cbn [readUmbrellaOrCaretData] in H |- *.
  destruct (IOBuf.empty (readBuffer_ p)); [exact H|].
  destruct (parseHeader _ _ _) as [st info]. destruct st; try exact H.
  cbn [umMsgInfo_ set_umMsgInfo readBuffer_ protocol_ callback_] in H |- *.
  destruct (messageSizeOf info <=? _); [|exact H].
  destruct (messageReady _ _ _ _ _) as [[cbst c] ev].
  destruct cbst; cbn [negb] in H |- *; [|exact H].
  destruct (readUmbrellaOrCaretData cbk X n _) as [[[r0 q] es]|] eqn:E;
    [|discriminate].
  rewrite (IH _ _ m E) by lia. exact H.
Qed.

Lemma loop_terminates (n : nat) :
  positiveSize X ->
  forall p : Parser,
  (List.length (IOBuf.data (readBuffer_ p)) <= n)%nat ->
  exists r, readUmbrellaOrCaretData cbk X (S n) p = Some r.
Proof.
  intros Hpos. induction n as [|n IH]; intros p Hn.
  - exists (true, p, []). apply loop_empty. apply empty_true_data.
    destruct (IOBuf.data (readBuffer_ p)); [reflexivity | cbn in Hn; lia].
  - destruct (IOBuf.empty (readBuffer_ p)) eqn:He.
    { rewrite loop_empty by exact He. now eexists. }
    destruct (parseHeader X (protocol_ p) (IOBuf.data (readBuffer_ p)))
      as [st info] eqn:Hp.
    destruct st.
    + destruct (N.le_gt_cases (messageSizeOf info) (IOBuf.length (readBuffer_ p)))
        as [Hsz|Hsz].
      * destruct (messageReady cbk (protocol_ p) info (readBuffer_ p) (callback_ p))
          as [[cbst c] ev] eqn:Hcb.
        rewrite (loop_deliver (S n) p info cbst c ev He Hp Hsz Hcb).
        destruct cbst; [|now eexists].
        pose proof (Hpos _ _ _ Hp) as Hm.
        set (q := reportMsgRead _).
        destruct (IH q) as [[[r0 q'] es] Hr].
        { unfold q. cbn. rewrite length_skipn. unfold IOBuf.length in Hsz. lia. }
        rewrite Hr. now eexists.
      * destruct (N.lt_ge_cases (IOBuf.length (readBuffer_ p)) (headerSize info)).
        -- rewrite (loop_wait_header (S n) p info) by assumption. now eexists.
        -- rewrite (loop_wait_body (S n) p info) by assumption. now eexists.
    + rewrite (loop_malformed (S n) p info) by assumption. now eexists.
    + rewrite (loop_not_enough (S n) p info) by assumption. now eexists.
Qed.

(** *** The loop, iteration by iteration *)

Lemma loop_Run (fuel : nat) :
  forall (p p' : Parser) (ret : bool) (evs : list Event),
  readUmbrellaOrCaretData cbk X fuel p = Some (ret, p', evs) ->
  Run cbk X p ret p' evs.
Proof.
  induction fuel as [|fuel IH]; intros p p' ret evs H; [discriminate|].
  destruct (IOBuf.empty (readBuffer_ p)) eqn:He.
  { rewrite loop_empty in H by exact He. injection H as <- <- <-.
    now constructor. }
  destruct (parseHeader X (protocol_ p) (IOBuf.data (readBuffer_ p)))
    as [st info] eqn:Hp.
  destruct st.
  - destruct (N.le_gt_cases (messageSizeOf info) (IOBuf.length (readBuffer_ p)))
      as [Hsz|Hsz].
    + destruct (messageReady cbk (protocol_ p) info (readBuffer_ p) (callback_ p))
        as [[cbst c] ev] eqn:Hcb.
      rewrite (loop_deliver fuel p info cbst c ev He Hp Hsz Hcb) in H.
      destruct cbst.
      * destruct (readUmbrellaOrCaretData cbk X fuel _) as [[[r q] es]|] eqn:E;
          [|discriminate].
        injection H as <- <- <-.
        apply (Run_delivered cbk X p info c ev); try assumption.
        now apply IH.
      * injection H as <- <- <-. now apply (Run_refused cbk X p info c ev).
    + destruct (N.lt_ge_cases (IOBuf.length (readBuffer_ p)) (headerSize info)).
      * rewrite (loop_wait_header fuel p info) in H by assumption.
        injection H as <- <- <-. now apply Run_wait_header.
      * rewrite (loop_wait_body fuel p info) in H by assumption.
        injection H as <- <- <-. now apply Run_wait_body.
  - rewrite (loop_malformed fuel p info) in H by assumption.
    injection H as <- <- <-. now apply Run_malformed.
  - rewrite (loop_not_enough fuel p info) in H by assumption.
    injection H as <- <- <-. now apply Run_not_enough.
Qed.

Ltac run_induction H IH :=
  induction H as [p He | p info He Hp | p info He Hp | p info He Hp Hlt Hh
                  | p info He Hp Hlt Hh | p info c ev He Hp Hsz Hcb
                  | p info c ev ret p' evs He Hp Hsz Hcb Hrun IH].

Lemma growForBody_data (p : Parser) :
  IOBuf.data (readBuffer_ (growForBody X p)) = IOBuf.data (readBuffer_ p).
Proof.
  unfold growForBody, IOBuf.unshare.
  destruct (_ <? _); destruct (_ && _); cbn; rewrite ?reserve_data; reflexivity.
Qed.

Lemma Run_wf (p p' : Parser) (ret : bool) (evs : list Event) :
  goodSize_ok X -> Run cbk X p ret p' evs -> IOBuf.wf (readBuffer_ p) ->
  IOBuf.wf (readBuffer_ p') /\ bufferSize_ p <= bufferSize_ p'.
Proof.
  intros Hg H. run_induction H IH; intros Hwf.
  - split; [exact Hwf | lia].
  - split; [exact Hwf | cbn; lia].
  - split; [exact Hwf | cbn; lia].
  - split; [exact Hwf | cbn; lia].
  - destruct (growForBody_buffer (set_umMsgInfo info p) Hg Hwf Hlt) as (W & _ & B).
    split; [exact W | exact B].
  - split; [|cbn; lia]. unfold IOBuf.wf, IOBuf.length. cbn. lia.
  - destruct IH as [W B]; [|split; [exact W | exact B]].
    cbn [readBuffer_ reportMsgRead set_parsedMessages set_readBuffer].
    now apply trimStart_wf.
Qed.

Lemma frames_cons (ev : Event) (evs : list Event) :
  frames (ev :: evs) = frameOf ev ++ frames evs.
Proof. reflexivity. Qed.

Lemma Run_conserves (p p' : Parser) (ret : bool) (evs : list Event) :
  Run cbk X p ret p' evs -> existsb refused evs = false ->
  List.concat (map frame_bytes (frames evs)) ++ IOBuf.data (readBuffer_ p')
  = IOBuf.data (readBuffer_ p).
Proof.
  intros H. run_induction H IH; intros Hno; try reflexivity.
  - cbn. exact (growForBody_data (set_umMsgInfo info p)).
  - exfalso. apply messageReady_event in Hcb as (Hm & Ha & _).
    cbn in Hno. unfold refused in Hno. rewrite Hm, Ha in Hno. discriminate.
  - cbn [existsb] in Hno. apply orb_false_elim in Hno as [_ Hno].
    rewrite frames_cons, (messageReady_frame _ _ _ _ _ _ _ Hcb).
    cbn [app map List.concat frameFor frame_bytes]. rewrite <- app_assoc, (IH Hno).
    cbn. apply firstn_skipn.
Qed.

Lemma Run_refusal (p p' : Parser) (ret : bool) (evs : list Event) :
  Run cbk X p ret p' evs -> existsb refused evs = true ->
  ret = false /\ readBuffer_ p' = IOBuf.mk (IOBuf.capacity (readBuffer_ p)) 0 [] /\
  exists acc ev, evs = acc ++ [ev] /\ refused ev = true /\
                 forallb accepted acc = true.
Proof.
  intros H. run_induction H IH; intros Hyes; try discriminate.
  - split; [reflexivity|]. split; [reflexivity|].
    exists [], ev. cbn in Hyes. rewrite orb_false_r in Hyes. now repeat split.
  - apply messageReady_event in Hcb as (Hm & Ha & _).
    cbn [existsb] in Hyes. unfold refused at 1 in Hyes.
    rewrite Hm, Ha in Hyes. cbn in Hyes.
    destruct (IH Hyes) as (Hr & Hb & acc & ev' & -> & Hrf & Hacc).
    split; [exact Hr|]. split; [exact Hb|].
    exists (ev :: acc), ev'. cbn. now rewrite Ha, Hacc.
Qed.

Lemma skipn_suffix (k m : nat) (d : list byte) :
  skipn k (skipn m d) = skipn (m + k) d.
Proof. rewrite skipn_skipn. f_equal. lia. Qed.

Lemma wholeFrame_shift (pr : mc_protocol_t) (m : nat) (d : list byte) (ev : Event) :
  wholeFrame X pr (skipn m d) ev -> wholeFrame X pr d ev.
Proof.
  destruct ev; cbn; try tauto;
    intros (A & B & C & k & D); repeat split; try assumption;
    exists (m + k)%nat; now rewrite D, skipn_suffix.
Qed.

Lemma Run_wholeFrames (p p' : Parser) (ret : bool) (evs : list Event) :
  representableSizes X ->
  Run cbk X p ret p' evs ->
  Forall (wholeFrame X (protocol_ p) (IOBuf.data (readBuffer_ p))) evs.
Proof.
  intros Hrep H. run_induction H IH; try (constructor; fail).
  - constructor; [reflexivity | constructor].
  - constructor; [|constructor].
    rewrite (messageSize_fits info (Hrep _ _ _ Hp)) in Hsz.
    revert Hcb Hp. unfold messageReady, parseHeader.
    destruct (mc_protocol_eqb (protocol_ p) mc_umbrella_protocol) eqn:E.
    + destruct (umMessageReady _ _ _ _). intros [= _ _ <-] Hp.
      cbn. repeat split; try assumption; [now destruct (protocol_ p) | now exists 0%nat].
    + destruct (caretMessageReady _ _ _ _). intros [= _ _ <-] Hp.
      cbn. repeat split; try assumption; [|now exists 0%nat].
      intros E'. rewrite E' in E. discriminate.
  - constructor.
    + rewrite (messageSize_fits info (Hrep _ _ _ Hp)) in Hsz.
      revert Hcb Hp. unfold messageReady, parseHeader.
      destruct (mc_protocol_eqb (protocol_ p) mc_umbrella_protocol) eqn:E.
      * destruct (umMessageReady _ _ _ _). intros [= _ _ <-] Hp.
        cbn. repeat split; try assumption; [now destruct (protocol_ p) | now exists 0%nat].
      * destruct (caretMessageReady _ _ _ _). intros [= _ _ <-] Hp.
        cbn. repeat split; try assumption; [|now exists 0%nat].
        intros E'. rewrite E' in E. discriminate.
    + cbn in IH. eapply Forall_impl; [|exact IH].
      intros e. apply wholeFrame_shift.
Qed.

(** *** What a call keeps *)

Lemma getReadBuffer_data (p : Parser) :
  IOBuf.data (readBuffer_ (fst (getReadBuffer X p))) = IOBuf.data (readBuffer_ p) /\
  sameSettings p (fst (getReadBuffer X p)) /\
  bufferSize_ (fst (getReadBuffer X p)) = bufferSize_ p /\
  callback_ (fst (getReadBuffer X p)) = callback_ p.
Proof.
  split; [|repeat split].
  unfold getReadBuffer, IOBuf.unshare. cbn [fst readBuffer_ set_readBuffer].
  destruct (IOBuf.length (readBuffer_ p) =? 0) eqn:E.
  - apply N.eqb_eq in E.
    destruct (0 <? IOBuf.capacity _); cbn [andb];
      [symmetry; exact (length_zero_data _ E)|].
    destruct (0 <? IOBuf.headroom _); [reflexivity|]. apply reserve_data.
  - cbn [andb]. destruct (0 <? IOBuf.headroom _); [reflexivity|].
    apply reserve_data.
Qed.

Lemma shrinkBuffer_data (p : Parser) :
  IOBuf.data (readBuffer_ (fst (shrinkBuffer X p))) = IOBuf.data (readBuffer_ p) /\
  callback_ (fst (shrinkBuffer X p)) = callback_ p /\
  bufferSize_ (fst (shrinkBuffer X p)) <= bufferSize_ p.
Proof.
  unfold shrinkBuffer. destruct (shrinkCondition p) eqn:E; cbn [fst].
  - apply shrinkCondition_spec in E as (_ & _ & E).
    rewrite (length_zero_data _ E). cbn. repeat split. lia.
  - repeat split. lia.
Qed.

Lemma shrinkBuffer_events (p : Parser) :
  existsb refused (snd (shrinkBuffer X p)) = false.
Proof. unfold shrinkBuffer. now destruct (shrinkCondition p). Qed.

Lemma readDataAvailable_settings (fuel : nat) (bytes : list byte)
    (p p' : Parser) (ret : bool) (evs : list Event) :
  seenFirstByte_ p = true ->
  readDataAvailable cbk X fuel bytes p = Some (ret, p', evs) ->
  sameSettings p p'.
Proof.
  intros Hseen. unfold readDataAvailable.
  set (p0 := set_readBuffer _ p).
  destruct (IOBuf.empty _); [intros [= _ <- _]; settings|].
  rewrite (detect_seen p0) by exact Hseen. cbn [negb].
  destruct (is_binary (protocol_ p0)).
  - destruct (readUmbrellaOrCaretData _ _ _ _) as [[[r q] es]|] eqn:Hrun;
      [|discriminate].
    pose proof (shrinkBuffer_settings q) as Hs.
    destruct (shrinkBuffer X q) as [q2 es2]. cbn [fst] in Hs.
    intros [= _ <- _]. apply loop_trace in Hrun as (Hl & _).
    exact (sameSettings_trans _ _ _ Hl Hs).
  - destruct (handleAscii _ _ _). intros [= _ <- _]. settings.
Qed.

Lemma feed_settings (fuel : nat) (bytes : list byte)
    (p p' : Parser) (ret : bool) (evs : list Event) :
  seenFirstByte_ p = true ->
  feed cbk X fuel bytes p = Some (ret, p', evs) -> sameSettings p p'.
Proof.
  intros Hseen. unfold feed.
  destruct (getReadBuffer_data p) as (_ & Hs & _).
  destruct (getReadBuffer X p) as [p1 ml]. cbn [fst] in Hs.
  destruct (_ <=? ml); [|discriminate]. intros H.
  apply readDataAvailable_settings in H; [|destruct Hs as (_ & -> & _); exact Hseen].
  exact (sameSettings_trans _ _ _ Hs H).
Qed.

(** X6: detection is done once.  Along any sequence of cycles of a parser
    that has seen its first byte, the protocol and the in-order/out-of-order
    mode stay what they are. *)
Theorem detection_is_irrevocable (fuel : nat) (chunks : list (list byte)) :
  forall (p p' : Parser) (ret : bool) (evs : list Event),
  seenFirstByte_ p = true ->
  feedAll cbk X fuel chunks p = Some (ret, p', evs) ->
  seenFirstByte_ p' = true /\ protocol_ p' = protocol_ p /\
  outOfOrder_ p' = outOfOrder_ p.
Proof.
  induction chunks as [|c cs IH]; intros p p' ret evs Hseen; cbn [feedAll].
  - intros [= _ <- _]. now repeat split.
  - destruct (feed cbk X fuel c p) as [[[r q] es]|] eqn:Hf; [|discriminate].
    apply feed_settings in Hf as (Hpr & Hs & Ho & _); [|exact Hseen].
    destruct r.
    + destruct (feedAll cbk X fuel cs q) as [[[r2 q2] es2]|] eqn:Hrest;
        [|discriminate].
      intros [= _ <- _].
      destruct (IH q q2 r2 es2) as (A & B & C); [congruence | exact Hrest |].
      repeat split; congruence.
    + intros [= _ <- _]. repeat split; congruence.
Qed.

(** X7: the first byte the parser is given names the protocol, whatever
    follows it in the same read.  A byte that names none of the three
    protocols makes the call return false without any callback, the bytes
    staying in the buffer. *)
Theorem first_byte_decides (fuel : nat) (b : byte) (x : list byte)
    (p p' : Parser) (ret : bool) (evs : list Event) :
  seenFirstByte_ p = false -> IOBuf.data (readBuffer_ p) = [] ->
  readDataAvailable cbk X fuel (b :: x) p = Some (ret, p', evs) ->
  let pr := determineProtocol X b in
  seenFirstByte_ p' = true /\ protocol_ p' = pr /\
  (is_binary pr || mc_protocol_eqb pr mc_ascii_protocol = true ->
   outOfOrder_ p' = is_binary pr) /\
  (is_binary pr || mc_protocol_eqb pr mc_ascii_protocol = false ->
   ret = false /\ evs = [] /\ IOBuf.data (readBuffer_ p') = b :: x /\
   outOfOrder_ p' = outOfOrder_ p).
Proof.
  intros Hs Hd. unfold readDataAvailable.
  set (p0 := set_readBuffer (IOBuf.append (b :: x) (readBuffer_ p)) p).
  assert (Hd0 : IOBuf.data (readBuffer_ p0) = b :: x)
    by (unfold p0; cbn; now rewrite Hd).
  rewrite (empty_false_data (readBuffer_ p0)) by (rewrite Hd0; discriminate).
  rewrite (detect_first p0 b) by (try exact Hs; now rewrite Hd0).
  cbn zeta. set (pr := determineProtocol X b).
  destruct (is_binary pr || mc_protocol_eqb pr mc_ascii_protocol) eqn:Hk;
    cbn [negb].
  - intros H.
    assert (Hset : sameSettings (detected pr p0) p').
    { destruct (is_binary (protocol_ (detected pr p0))).
      - destruct (readUmbrellaOrCaretData _ _ _ _) as [[[r q] es]|] eqn:Hrun;
          [|discriminate].
        pose proof (shrinkBuffer_settings q) as Hq.
        destruct (shrinkBuffer X q) as [q2 es2]. cbn [fst] in Hq.
        injection H as _ <- _. apply loop_trace in Hrun as (Hl & _).
        exact (sameSettings_trans _ _ _ Hl Hq).
      - destruct (handleAscii _ _ _). injection H as _ <- _. settings. }
    destruct Hset as (A & B & C & _). cbn in A, B, C.
    repeat split; try assumption; congruence.
  - intros [= <- <- <-]. repeat split; try congruence; exact Hd0.
Qed.

(** X8: what the state left by a failed detection does to a later call: the
    parser takes the first byte for seen, so the next bytes are not examined
    and everything pending goes to [handleAscii], the call returning true. *)
Theorem failed_detection_then_ascii (f1 f2 : nat) (b : byte) (x y : list byte)
    (p : Parser) :
  seenFirstByte_ p = false -> IOBuf.data (readBuffer_ p) = [] ->
  is_binary (determineProtocol X b)
  || mc_protocol_eqb (determineProtocol X b) mc_ascii_protocol = false ->
  exists p1,
    readDataAvailable cbk X f1 (b :: x) p = Some (false, p1, []) /\
    exists p2 buf,
      readDataAvailable cbk X f2 y p1 = Some (true, p2, [EvHandleAscii buf]) /\
      IOBuf.data buf = (b :: x) ++ y /\
      readBuffer_ p2 = fst (handleAscii cbk buf (callback_ p)).
Proof.
  intros Hs Hd Hk. unfold readDataAvailable at 1.
  set (p0 := set_readBuffer (IOBuf.append (b :: x) (readBuffer_ p)) p).
  assert (Hd0 : IOBuf.data (readBuffer_ p0) = b :: x)
    by (unfold p0; cbn; now rewrite Hd).
  rewrite (empty_false_data (readBuffer_ p0)) by (rewrite Hd0; discriminate).
  rewrite (detect_first p0 b) by (try exact Hs; now rewrite Hd0).
  cbn zeta. rewrite Hk. cbn [negb].
  eexists. split; [reflexivity|].
  set (p1 := set_protocol _ _).
  unfold readDataAvailable.
  set (q := set_readBuffer (IOBuf.append y (readBuffer_ p1)) p1).
  assert (Hdq : IOBuf.data (readBuffer_ q) = (b :: x) ++ y)
    by (unfold q, p1; cbn; now rewrite Hd).
  rewrite (empty_false_data (readBuffer_ q)) by (rewrite Hdq; discriminate).
  rewrite (detect_seen q) by reflexivity. cbn [negb].
  replace (is_binary (protocol_ q)) with false.
  2:{ change (protocol_ q) with (determineProtocol X b).
      apply orb_false_elim in Hk as [-> _]. reflexivity. }
  destruct (handleAscii cbk (readBuffer_ q) (callback_ q)) as [b3 c3] eqn:Ha.
  eexists _, _. split; [reflexivity|]. split; [exact Hdq|].
  change (callback_ p) with (callback_ q). now rewrite Ha.
Qed.

(** X1: the loop ends.  When the header parsers never announce an empty
    frame, the dispatcher returns from every state, within one iteration per
    pending byte plus one; more fuel does not change what it returns. *)
Theorem dispatcher_terminates (p : Parser) :
  positiveSize X ->
  exists r, forall fuel,
    (List.length (IOBuf.data (readBuffer_ p)) < fuel)%nat ->
    readUmbrellaOrCaretData cbk X fuel p = Some r.
Proof.
  intros Hpos.
  destruct (loop_terminates _ Hpos p (le_n _)) as [r Hr].
  exists r. intros fuel Hf. apply (loop_fuel_mono _ _ _ _ Hr). lia.
Qed.

(** X2: a frame of size 0 stops the dispatcher from ever returning.  If the
    header parser reads the pending bytes as a frame whose size, the
    [size_t] sum of [headerSize] and [bodySize], is 0 and the callbacks take
    every frame, each iteration delivers the frame, consumes nothing and
    starts over: no amount of fuel reaches the exit. *)
Theorem empty_frame_never_returns (info : UmbrellaMessageInfo) (fuel : nat) :
  acceptsAll cbk -> messageSizeOf info = 0 ->
  forall p : Parser,
  IOBuf.data (readBuffer_ p) <> [] ->
  parseHeader X (protocol_ p) (IOBuf.data (readBuffer_ p)) = (OK, info) ->
  readUmbrellaOrCaretData cbk X fuel p = None.
Proof.
  intros Hacc Hz. induction fuel as [|fuel IH]; intros p Hne Hp; [reflexivity|].
  destruct (messageReady cbk (protocol_ p) info (readBuffer_ p) (callback_ p))
    as [[st c] ev] eqn:Hcb.
  pose proof (Hacc (protocol_ p) info (readBuffer_ p) (callback_ p)) as Hst.
  rewrite Hcb in Hst. cbn [fst] in Hst. subst st.
  rewrite (loop_deliver fuel p info true c ev (empty_false_data _ Hne) Hp); cycle 1.
  { rewrite Hz. apply N.le_0_l. }
  { exact Hcb. }
  rewrite IH; [reflexivity | |]; cbn; rewrite Hz; cbn; assumption.
Qed.

(** *** No byte is lost *)

Lemma Run_true_no_refusal (p p' : Parser) (ret : bool) (evs : list Event) :
  Run cbk X p ret p' evs -> ret = true -> existsb refused evs = false.
Proof.
  intros H. run_induction H IH; intros Hr; try discriminate; try reflexivity.
  cbn [existsb]. rewrite (IH Hr), orb_false_r.
  apply messageReady_event in Hcb as (Hm & Ha & _).
  unfold refused. now rewrite Hm, Ha.
Qed.

Lemma readDataAvailable_conserves (fuel : nat) (bytes : list byte)
    (p p' : Parser) (evs : list Event) :
  seenFirstByte_ p = true -> is_binary (protocol_ p) = true ->
  readDataAvailable cbk X fuel bytes p = Some (true, p', evs) ->
  List.concat (map frame_bytes (frames evs)) ++ IOBuf.data (readBuffer_ p')
  = IOBuf.data (readBuffer_ p) ++ bytes.
Proof.
  intros Hseen Hbin. unfold readDataAvailable.
  set (p0 := set_readBuffer _ p).
  destruct (IOBuf.empty _); [intros [= <- <-]; reflexivity|].
  rewrite (detect_seen p0) by exact Hseen. cbn [negb].
  replace (is_binary (protocol_ p0)) with true by (symmetry; exact Hbin).
  destruct (readUmbrellaOrCaretData _ _ _ _) as [[[r q] es]|] eqn:Hrun;
    [|discriminate].
  pose proof (shrinkBuffer_data q) as (Hd & _).
  pose proof (shrinkBuffer_frames q) as Hf.
  destruct (shrinkBuffer X q) as [q2 es2]. cbn [fst snd] in *.
  intros [= -> <- <-]. apply loop_Run in Hrun.
  rewrite frames_app, Hf, app_nil_r, Hd.
  exact (Run_conserves _ _ _ _ Hrun (Run_true_no_refusal _ _ _ _ Hrun eq_refl)).
Qed.

Lemma feedAll_conserves (fuel : nat) (chunks : list (list byte)) :
  forall (p p' : Parser) (evs : list Event),
  seenFirstByte_ p = true -> is_binary (protocol_ p) = true ->
  feedAll cbk X fuel chunks p = Some (true, p', evs) ->
  List.concat (map frame_bytes (frames evs)) ++ IOBuf.data (readBuffer_ p')
  = IOBuf.data (readBuffer_ p) ++ List.concat chunks.
Proof.
  induction chunks as [|c cs IH]; intros p p' evs Hseen Hbin; cbn [feedAll].
  - intros [= <- <-]. cbn. now rewrite app_nil_r.
  - destruct (feed cbk X fuel c p) as [[[r q] es]|] eqn:Hf; [|discriminate].
    destruct r; [|discriminate].
    destruct (feedAll cbk X fuel cs q) as [[[r2 q2] es2]|] eqn:Hrest;
      [|discriminate].
    intros [= -> -> <-].
    pose proof (feed_settings _ _ _ _ _ _ Hseen Hf) as (Hpr & Hs & _).
    assert (Hq : List.concat (map frame_bytes (frames es))
                 ++ IOBuf.data (readBuffer_ q)
                 = IOBuf.data (readBuffer_ p) ++ c).
    { revert Hf. unfold feed.
      destruct (getReadBuffer_data p) as (Hd & (Hp1 & Hs1 & _) & _).
      destruct (getReadBuffer X p) as [p1 ml]. cbn [fst] in *.
      destruct (_ <=? ml); [|discriminate]. intros Hf.
      rewrite <- Hd.
      apply (readDataAvailable_conserves fuel c p1 q es); congruence. }
    rewrite frames_app, map_app, concat_app, <- app_assoc.
    rewrite (IH q p' es2) by congruence.
    cbn [List.concat]. now rewrite !app_assoc, Hq.
Qed.

(** X3: over any number of cycles of a binary connection that all return
    true, the bytes of the delivered frames followed by what is left pending
    are exactly what was pending at the start followed by what was written:
    nothing is dropped, duplicated or reordered. *)
Theorem connection_conserves_bytes (fuel : nat) (chunks : list (list byte)) :
  forall (p p' : Parser) (evs : list Event),
  seenFirstByte_ p = true -> is_binary (protocol_ p) = true ->
  feedAll cbk X fuel chunks p = Some (true, p', evs) ->
  List.concat (map frame_bytes (frames evs)) ++ IOBuf.data (readBuffer_ p')
  = IOBuf.data (readBuffer_ p) ++ List.concat chunks.
Proof. exact (feedAll_conserves fuel chunks). Qed.

(** X4: a refusal ends the run and empties the buffer.  When some message
    callback returns false, the dispatcher returns false, that call is the
    last one made, every frame before it was accepted, and the read buffer is
    left cleared (its storage kept): bytes that followed the refused frame
    are gone. *)
Theorem refusal_clears_buffer (fuel : nat) (p p' : Parser) (ret : bool)
    (evs : list Event) :
  readUmbrellaOrCaretData cbk X fuel p = Some (ret, p', evs) ->
  existsb refused evs = true ->
  ret = false /\
  readBuffer_ p' = IOBuf.mk (IOBuf.capacity (readBuffer_ p)) 0 [] /\
  exists acc ev, evs = acc ++ [ev] /\ refused ev = true /\
                 forallb accepted acc = true.
Proof. intros H. apply Run_refusal. exact (loop_Run _ _ _ _ _ H). Qed.

(** X5: a message callback is only ever handed a whole frame.  With header
    parsers that announce frame sizes fitting [size_t], every call the
    dispatcher makes is the callback of the connection's protocol (Umbrella,
    or else Caret), on a buffer that begins at some offset of what was
    pending, whose header that protocol's parser read as the descriptor
    passed along, and that holds at least the [headerSize + bodySize] bytes
    the descriptor announces; the only other call is [parseError] with the
    remote-error code. *)
Theorem callbacks_get_whole_frames (fuel : nat) (p p' : Parser) (ret : bool)
    (evs : list Event) :
  representableSizes X ->
  readUmbrellaOrCaretData cbk X fuel p = Some (ret, p', evs) ->
  Forall (wholeFrame X (protocol_ p) (IOBuf.data (readBuffer_ p))) evs.
Proof.
  intros Hrep H. eapply Run_wholeFrames; [exact Hrep|].
  exact (loop_Run _ _ _ _ _ H).
Qed.

(** *** The buffer along a connection *)

Lemma detect_buffer (p pd : Parser) (go : bool) :
  detectOnFirstByte X p = (pd, go) ->
  readBuffer_ pd = readBuffer_ p /\ bufferSize_ pd = bufferSize_ p /\
  maxBufferSize_ pd = maxBufferSize_ p /\ callback_ pd = callback_ p.
Proof.
  unfold detectOnFirstByte. destruct (negb _); [|now intros [= <- _]].
  destruct (is_binary _); [now intros [= <- _]|].
  destruct (mc_protocol_eqb _ _); now intros [= <- _].
Qed.

Lemma readDataAvailable_buffer (low mx : N) (fuel : nat) (bytes : list byte)
    (p p' : Parser) (ret : bool) (evs : list Event) :
  goodSize_ok X -> asciiKeepsWf cbk -> low <= mx ->
  bufferInvariant low mx p ->
  N.of_nat (List.length bytes) <= IOBuf.tailroom (readBuffer_ p) ->
  readDataAvailable cbk X fuel bytes p = Some (ret, p', evs) ->
  bufferInvariant low mx p'.
Proof.
  intros Hg Hawf Hlow (Hwf & Hb & Hm) Hfit. unfold readDataAvailable.
  set (p0 := set_readBuffer (IOBuf.append bytes (readBuffer_ p)) p).
  assert (H0 : bufferInvariant low mx p0).
  { unfold bufferInvariant, p0. cbn [readBuffer_ set_readBuffer bufferSize_ maxBufferSize_].
    repeat split; try assumption.
    unfold IOBuf.wf, IOBuf.append, IOBuf.tailroom, IOBuf.length in *.
    cbn [IOBuf.capacity IOBuf.headroom IOBuf.data] in *.
    rewrite length_app. lia. }
  destruct (IOBuf.empty _); [intros [= _ <- _]; exact H0|].
  destruct (detectOnFirstByte X p0) as [pd go] eqn:Hdet.
  apply detect_buffer in Hdet as (Db & Ds & Dm & _).
  assert (Hd : bufferInvariant low mx pd).
  { unfold bufferInvariant. rewrite Db, Ds, Dm. exact H0. }
  destruct go; cbn [negb]; [|intros [= _ <- _]; exact Hd].
  destruct Hd as (Wd & Bd & Md).
  destruct (is_binary (protocol_ pd)).
  - destruct (readUmbrellaOrCaretData _ _ _ _) as [[[r q] es]|] eqn:Hrun;
      [|discriminate].
    pose proof (loop_trace _ _ _ _ _ Hrun) as ((_ & _ & _ & Lm & _) & _).
    apply loop_Run in Hrun. apply Run_wf in Hrun as (Wq & Bq); try assumption.
    unfold shrinkBuffer. destruct (shrinkCondition q); intros [= _ <- _].
    + unfold bufferInvariant.
      cbn [readBuffer_ set_readBuffer bufferSize_ set_bufferSize maxBufferSize_
           set_parsedMessages].
      repeat split; [unfold IOBuf.wf, IOBuf.length; cbn; lia | lia | congruence].
    + repeat split; [exact Wq | lia | congruence].
  - pose proof (Hawf (readBuffer_ pd) (callback_ pd) Wd) as Wa.
    destruct (handleAscii _ _ _) as [b3 c3]. intros [= _ <- _].
    repeat split; assumption.
Qed.

Lemma feed_buffer (low mx : N) (fuel : nat) (bytes : list byte)
    (p p' : Parser) (ret : bool) (evs : list Event) :
  goodSize_ok X -> asciiKeepsWf cbk -> low <= mx ->
  bufferInvariant low mx p ->
  feed cbk X fuel bytes p = Some (ret, p', evs) ->
  bufferInvariant low mx p'.
Proof.
  intros Hg Hawf Hlow (Hwf & Hb & Hm). unfold feed.
  destruct (getReadBuffer_adjusts p Hg Hwf) as (Hp1 & Hwf1 & _ & _ & Hmax & _).
  cbn zeta in Hp1, Hwf1, Hmax.
  destruct (getReadBuffer X p) as [p1 ml]. cbn [fst snd] in *.
  destruct (_ <=? ml) eqn:Hfit; [|discriminate]. apply N.leb_le in Hfit.
  apply (readDataAvailable_buffer low mx); try assumption; [|lia].
  rewrite Hp1. repeat split; assumption.
Qed.

(** X9: the buffer stays sound and writable for the life of a connection.
    After any cycles of a parser built by the constructor (each write within
    the length [getReadBuffer] gave), headroom plus pending bytes fit the
    capacity, [maxBufferSize_] is the constructor's, [bufferSize_] is at
    least the smaller of the two sizes it was built with, and so the next
    [getReadBuffer] offers at least one byte when both sizes are positive. *)
Theorem connection_buffer_invariant (fuel : nat) (chunks : list (list byte))
    (c0 : CB) (mn mx : N) (nodump : bool) (ret : bool) (p' : Parser)
    (evs : list Event) :
  goodSize_ok X -> asciiKeepsWf cbk ->
  feedAll cbk X fuel chunks (McParser_new X c0 mn mx nodump)
    = Some (ret, p', evs) ->
  IOBuf.wf (readBuffer_ p') /\ maxBufferSize_ p' = mx /\
  N.min mn mx <= bufferSize_ p' /\
  (1 <= mn -> 1 <= mx -> 1 <= snd (getReadBuffer X p')).
Proof.
  intros Hg Hawf Hrun.
  assert (Hinv : bufferInvariant (N.min mn mx) mx p').
  { assert (H0 : bufferInvariant (N.min mn mx) mx (McParser_new X c0 mn mx nodump)).
    { unfold bufferInvariant, IOBuf.wf, IOBuf.length. cbn. repeat split; lia. }
    revert Hrun H0. generalize (McParser_new X c0 mn mx nodump).
    revert ret p' evs.
    induction chunks as [|c cs IH]; intros ret p' evs p; cbn [feedAll].
    - now intros [= _ <- _].
    - destruct (feed cbk X fuel c p) as [[[r q] es]|] eqn:Hf; [|discriminate].
      intros Hrun H0.
      assert (Hq : bufferInvariant (N.min mn mx) mx q)
        by (apply (feed_buffer _ _ _ _ _ _ _ _ Hg Hawf (N.le_min_r _ _) H0 Hf)).
      destruct r; [|injection Hrun as _ <- _; exact Hq].
      destruct (feedAll cbk X fuel cs q) as [[[r2 q2] es2]|] eqn:Hrest;
        [|discriminate].
      injection Hrun as _ <- _. exact (IH _ _ _ _ Hrest Hq). }
  destruct Hinv as (Hwf & Hb & Hm). repeat split; try assumption.
  intros H1 H2.
  destruct (getReadBuffer_adjusts p' Hg Hwf) as (_ & _ & _ & _ & _ & Hone).
  cbn zeta in Hone. apply Hone. lia.
Qed.

(** X10: a malformed header is never got past.  Once the pending bytes of a
    binary connection begin with a header its parser rejects (and rejects
    whatever follows it), every later call reports the same parse error,
    returns false and keeps all the bytes, new ones included; neither
    [getReadBuffer] nor the call drops or skips any. *)
Theorem malformed_header_is_sticky (fuel : nat) (y : list byte) (p : Parser) :
  errorStable X ->
  seenFirstByte_ p = true -> is_binary (protocol_ p) = true ->
  IOBuf.data (readBuffer_ p) <> [] ->
  fst (parseHeader X (protocol_ p) (IOBuf.data (readBuffer_ p)))
    = MESSAGE_PARSE_ERROR ->
  exists p',
    readDataAvailable cbk X (S fuel) y (fst (getReadBuffer X p))
    = Some (false, p',
            [EvParseError mc_res_remote_error (parseErrorMessage X (protocol_ p))]) /\
    IOBuf.data (readBuffer_ p') = IOBuf.data (readBuffer_ p) ++ y /\
    seenFirstByte_ p' = true /\ protocol_ p' = protocol_ p /\
    fst (parseHeader X (protocol_ p') (IOBuf.data (readBuffer_ p')))
      = MESSAGE_PARSE_ERROR.
Proof.
  intros Her Hseen Hbin Hne Hbad.
  destruct (getReadBuffer_data p) as (Hd & (Hpr & Hs & _) & _).
  set (p1 := fst (getReadBuffer X p)) in *.
  unfold readDataAvailable.
  set (p0 := set_readBuffer (IOBuf.append y (readBuffer_ p1)) p1).
  assert (Hd0 : IOBuf.data (readBuffer_ p0) = IOBuf.data (readBuffer_ p) ++ y)
    by (change (IOBuf.data (readBuffer_ p1) ++ y
                = IOBuf.data (readBuffer_ p) ++ y); now rewrite Hd).
  assert (Hne0 : IOBuf.empty (readBuffer_ p0) = false).
  { apply empty_false_data. rewrite Hd0. now apply app_not_nil. }
  assert (Hpr0 : protocol_ p0 = protocol_ p) by exact Hpr.
  pose proof (Her (protocol_ p) (IOBuf.data (readBuffer_ p)) y Hbad) as Hbad'.
  rewrite <- Hd0, <- Hpr0 in Hbad'.
  destruct (parseHeader X (protocol_ p0) (IOBuf.data (readBuffer_ p0)))
    as [st info] eqn:Hp. cbn [fst] in Hbad'. subst st.
  rewrite Hne0, (detect_seen p0) by (change (seenFirstByte_ p1 = true); congruence).
  cbn [negb].
  replace (is_binary (protocol_ p0)) with true by (rewrite Hpr0; now symmetry).
  rewrite (loop_malformed fuel p0 info Hne0 Hp).
  rewrite shrinkBuffer_no by (now apply shrinkCondition_pending).
  rewrite Hpr0. eexists. split; [reflexivity|].
  cbn [readBuffer_ set_callback set_umMsgInfo seenFirstByte_ protocol_].
  rewrite Hp. repeat split; try assumption.
Qed.

(** *** Fragmentation *)

Lemma Scan_deterministic (pr : mc_protocol_t) (d : list byte) (c : CB)
    (r1 : bool) (rest1 : list byte) (c1 : CB) (fr1 : list Frame) :
  Scan cbk X pr d c r1 rest1 c1 fr1 ->
  forall r2 rest2 c2 fr2,
  Scan cbk X pr d c r2 rest2 c2 fr2 ->
  r1 = r2 /\ rest1 = rest2 /\ c1 = c2 /\ fr1 = fr2.
Proof.
  intros H1.
  induction H1 as [c | d c i Hne Hp | d c i Hne Hp | d c i Hne Hp Hlt
                   | d c c' i Hne Hp Hle Ha
                   | d c c' i ret rest c'' fr Hne Hp Hle Ha Hs IH];
    intros r2 rest2 c2 fr2 H2; inversion H2; subst;
    try congruence; try (now repeat split);
    try match goal with
        | A : parseHeader X pr ?d = (OK, ?i), B : parseHeader X pr ?d = (OK, ?j)
          |- _ => assert (i = j) by congruence; subst j
        end;
    try lia; try congruence.
  - repeat split; congruence.
  - assert (c' = c'0) by congruence. subst c'0.
    match goal with
    | S2 : Scan _ _ _ _ _ _ _ _ _ |- _ => destruct (IH _ _ _ _ S2) as (A & B & C & D)
    end.
    subst. now repeat split.
Qed.

Lemma readDataAvailable_fuel_mono (n m : nat) (bytes : list byte) (p : Parser)
    (r : bool * Parser * list Event) :
  readDataAvailable cbk X n bytes p = Some r -> (n <= m)%nat ->
  readDataAvailable cbk X m bytes p = Some r.
Proof.
  unfold readDataAvailable. intros H Hle.
  destruct (IOBuf.empty _); [exact H|].
  destruct (detectOnFirstByte X _) as [pd go]. destruct (negb go); [exact H|].
  destruct (is_binary _); [|exact H].
  destruct (readUmbrellaOrCaretData cbk X n pd) as [[[r0 q] es]|] eqn:E;
    [|discriminate].
  now rewrite (loop_fuel_mono _ _ _ _ E Hle).
Qed.

Lemma feed_fuel_agree (n m : nat) (bytes : list byte) (p : Parser)
    (a b : bool * Parser * list Event) :
  feed cbk X n bytes p = Some a -> feed cbk X m bytes p = Some b -> a = b.
Proof.
  unfold feed. destruct (getReadBuffer X p) as [p1 ml].
  destruct (_ <=? ml); [|discriminate]. intros Ha Hb.
  apply (readDataAvailable_fuel_mono _ (Nat.max n m)) in Ha; [|lia].
  apply (readDataAvailable_fuel_mono _ (Nat.max n m)) in Hb; [|lia].
  congruence.
Qed.

Lemma feed_scan (pr : mc_protocol_t) (d x : list byte) (c : CB) (p p1 : Parser)
    (fuel : nat) (r1 : bool) (evs1 : list Event) :
  goodSize_ok X -> callbackLocal cbk -> positiveSize X -> is_binary pr = true ->
  connected pr d c p ->
  feed cbk X fuel x p = Some (r1, p1, evs1) ->
  exists rest1 c1,
    Scan cbk X pr (d ++ x) c r1 rest1 c1 (frames evs1) /\
    (r1 = true -> connected pr rest1 c1 p1).
Proof.
  intros Hg Hloc Hpos Hbin Hcon Hfeed.
  assert (Hfit : N.of_nat (List.length x) <= snd (getReadBuffer X p)).
  { revert Hfeed. unfold feed. destruct (getReadBuffer X p) as [q ml].
    cbn [snd]. destruct (_ <=? ml) eqn:E; [|discriminate].
    intros _. now apply N.leb_le. }
  destruct (Scan_total pr Hpos _ (d ++ x) c (le_n _))
    as (rs & rest & c' & fr & Hs).
  assert (Hcase : (d = [] /\ x = []) \/ d ++ x <> [])
    by (destruct d; [destruct x; [now left | right; discriminate]
                    | right; discriminate]).
  destruct Hcase as [[Hd Hx]|Hne].
  - subst d x. clear Hs. revert Hfeed. unfold feed.
    destruct Hcon as (Hseen & Hpr & Hdat & Hc & Hwf & Hb1 & Hm1).
    destruct (getReadBuffer_adjusts p Hg Hwf) as (Hp1 & Hwf1 & Hd1 & _).
    cbn zeta in Hp1, Hwf1, Hd1.
    destruct (getReadBuffer X p) as [q ml]. cbn [fst snd] in *.
    destruct (_ <=? ml); [|discriminate].
    unfold readDataAvailable. rewrite append_nil, set_readBuffer_same.
    rewrite (empty_true_data (readBuffer_ q)) by congruence.
    intros [= <- <- <-]. exists [], c. split; [constructor|].
    intros _. unfold connected.
    assert (Hs1 : sameSettings p q) by (rewrite Hp1; settings).
    assert (Hb : bufferSize_ q = bufferSize_ p) by (rewrite Hp1; reflexivity).
    assert (Hcq : callback_ q = callback_ p) by (rewrite Hp1; reflexivity).
    destruct Hs1 as (S1 & S2 & _ & S4 & _).
    repeat split; try assumption; congruence.
  - destruct (cycle_scans pr d x rest c c' rs fr p (S (List.length fr))
                Hg Hloc Hbin Hcon Hne Hfit Hs (Nat.lt_succ_diag_r _))
      as (p2 & evs2 & Hfeed2 & Hfr & Hcon2).
    pose proof (feed_fuel_agree _ _ _ _ _ _ Hfeed Hfeed2) as E.
    injection E as -> -> ->. exists rest, c'. rewrite Hfr. now split.
Qed.

Lemma chunks_scan (pr : mc_protocol_t) (fuel : nat) :
  goodSize_ok X -> callbackLocal cbk -> headerStable X -> errorStable X ->
  positiveSize X -> is_binary pr = true ->
  forall (chunks : list (list byte)) (d : list byte) (c : CB) (p p' : Parser)
         (ret : bool) (evs : list Event),
  connected pr d c p -> Scan cbk X pr d c true d c [] ->
  feedAll cbk X fuel chunks p = Some (ret, p', evs) ->
  exists rest c',
    Scan cbk X pr (d ++ List.concat chunks) c ret rest c' (frames evs).
Proof.
  intros Hg Hloc Hst Her Hpos Hbin.
  induction chunks as [|x cs IH]; intros d c p p' ret evs Hcon Hwait;
    cbn [feedAll List.concat].
  - intros [= <- _ <-]. exists d, c. now rewrite app_nil_r.
  - destruct (feed cbk X fuel x p) as [[[r1 p1] evs1]|] eqn:Hf; [|discriminate].
    destruct (feed_scan pr d x c p p1 fuel r1 evs1 Hg Hloc Hpos Hbin Hcon Hf)
      as (rest1 & c1 & Hs1 & Hcon1).
    rewrite app_assoc. destruct r1.
    + destruct (feedAll cbk X fuel cs p1) as [[[r2 q2] es2]|] eqn:Hrest;
        [|discriminate].
      intros [= <- _ <-].
      destruct (IH rest1 c1 p1 q2 r2 es2 (Hcon1 eq_refl)
                  (Scan_waiting _ _ _ _ _ _ _ Hs1 eq_refl) Hrest)
        as (rest & c' & Hs2).
      exists rest, c'. rewrite frames_app.
      exact (Scan_extend pr _ _ _ _ _ _ Hst Hs1 eq_refl _ _ _ _ _ Hs2).
    + intros [= <- _ <-].
      destruct (Scan_stopped pr _ _ _ _ _ _ Hst Her Hs1 eq_refl (List.concat cs))
        as (rest' & Hs2).
      now exists rest', c1.
Qed.

(** X11: how a stream is cut into reads does not matter.  From a binary
    connection with nothing pending, two sequences of cycles that write the
    same bytes in different pieces (each piece within the length
    [getReadBuffer] gave; the owner stops at the first false) hand the same
    frames to the message callbacks in the same order and end with the same
    return value.  Asked of the absent parts: what the byte-by-byte theorem
    asks. *)
Theorem fragmentation_does_not_matter (f1 f2 : nat) (cs1 cs2 : list (list byte))
    (p q1 q2 : Parser) (r1 r2 : bool) (e1 e2 : list Event) :
  goodSize_ok X -> callbackLocal cbk -> headerStable X -> errorStable X ->
  positiveSize X ->
  is_binary (protocol_ p) = true ->
  connected (protocol_ p) [] (callback_ p) p ->
  List.concat cs1 = List.concat cs2 ->
  feedAll cbk X f1 cs1 p = Some (r1, q1, e1) ->
  feedAll cbk X f2 cs2 p = Some (r2, q2, e2) ->
  r1 = r2 /\ frames e1 = frames e2.
Proof.
  intros Hg Hloc Hst Her Hpos Hbin Hcon Hsame H1 H2.
  destruct (chunks_scan _ f1 Hg Hloc Hst Her Hpos Hbin cs1 [] _ p q1 r1 e1 Hcon
              (Scan_empty cbk X _ _) H1) as (rest1 & c1 & S1).
  destruct (chunks_scan _ f2 Hg Hloc Hst Her Hpos Hbin cs2 [] _ p q2 r2 e2 Hcon
              (Scan_empty cbk X _ _) H2) as (rest2 & c2 & S2).
  rewrite Hsame in S1.
  destruct (Scan_deterministic _ _ _ _ _ _ _ S1 _ _ _ _ S2) as (A & _ & _ & B).
  now split.
Qed.

(** *** [reset] *)

(** X12: [reset] drops what is pending without a callback and keeps the
    connection's protocol: whatever was pending (half a frame, say), a whole
    frame written in the next cycle is the one frame delivered, exactly its
    bytes, and nothing is pending afterwards. *)
Theorem reset_then_frame (p : Parser) (f : list byte) (i : UmbrellaMessageInfo) :
  acceptsAll cbk ->
  seenFirstByte_ p = true -> is_binary (protocol_ p) = true ->
  bufferSize_ p <= IOBuf.capacity (readBuffer_ p) ->
  validFrame X (protocol_ p) f i -> N.of_nat (List.length f) <= bufferSize_ p ->
  IOBuf.data (readBuffer_ (reset p)) = [] /\
  exists p' evs fr,
    feed cbk X 2 f (reset p) = Some (true, p', evs) /\
    frames evs = [fr] /\ frame_bytes fr = f /\
    IOBuf.data (readBuffer_ p') = [] /\ protocol_ p' = protocol_ p.
Proof.
  intros Hacc Hseen Hbin Hcap Hv Hfit. split; [reflexivity|].
  assert (Hst : steady (reset p)) by (unfold steady; cbn; repeat split; assumption).
  destruct (one_frame_cycle (reset p) f i Hacc Hst Hv Hfit) as
    (q & ev & Hfeed & Hnr & Ha & Hs & _ & _ & Hlq & _).
  pose proof (shrinkBuffer_data q) as (Hd & _).
  pose proof (shrinkBuffer_frames q) as Hf.
  pose proof (shrinkBuffer_settings q) as Hs2.
  destruct (shrinkBuffer X q) as [q2 es]. cbn [fst snd] in *.
  assert (Hd2 : IOBuf.data (readBuffer_ q2) = [])
    by (rewrite Hd; exact (length_zero_data _ Hlq)).
  assert (Hall : feedAll cbk X 2 [f] (reset p) = Some (true, q2, (ev :: es) ++ []))
    by (cbn [feedAll]; now rewrite Hfeed).
  apply feedAll_conserves in Hall; try assumption.
  rewrite app_nil_r, frames_cons, Hf, app_nil_r, Hd2, app_nil_r in Hall.
  cbn [reset readBuffer_ set_readBuffer IOBuf.clear IOBuf.data List.concat app] in Hall.
  rewrite app_nil_r in Hall.
  assert (Hone : exists fr, frameOf ev = [fr]).
  { destruct ev; try discriminate Ha; cbn; now eexists. }
  destruct Hone as [fr Hfr]. rewrite Hfr in Hall. cbn in Hall.
  rewrite app_nil_r in Hall.
  exists q2, (ev :: es), fr. rewrite frames_cons, Hf, app_nil_r.
  repeat split; try assumption.
  destruct Hs as (A & _). destruct Hs2 as (B & _). cbn in A. congruence.
Qed.

(** *** The no-dump copy *)

(** X13: in a build with the no-dump allocator switched on, Case 3 with
    growth leaves the pending bytes in a storage of exactly the frame's size
    [headerSize + bodySize] (a size that fits [size_t]);
    [bufferSize_] is then at least that size, so the [getReadBuffer] that
    follows asks [reserve] for more tail room than that storage has and the
    bytes move to a larger, freshly reserved one before any of the body is
    written. *)
Theorem nodump_storage_left_at_next_getReadBuffer (fuel : nat) (p : Parser)
    (info : UmbrellaMessageInfo) :
  goodSize_ok X -> IOBuf.wf (readBuffer_ p) ->
  CAN_USE_JEMALLOC_NODUMP_ALLOCATOR X && useJemallocNodumpAllocator_ p = true ->
  IOBuf.empty (readBuffer_ p) = false ->
  parseHeader X (protocol_ p) (IOBuf.data (readBuffer_ p)) = (OK, info) ->
  headerSize info + bodySize info < size_max ->
  headerSize info <= IOBuf.length (readBuffer_ p) ->
  IOBuf.length (readBuffer_ p) + IOBuf.tailroom (readBuffer_ p)
    < headerSize info + bodySize info ->
  exists p',
    readUmbrellaOrCaretData cbk X (S fuel) p = Some (true, p', []) /\
    readBuffer_ p'
      = IOBuf.mk (headerSize info + bodySize info) 0
          (IOBuf.data (readBuffer_ p)) /\
    bufferSize_ p'
      = N.max (bufferSize_ p) (headerSize info + bodySize info) /\
    IOBuf.data (readBuffer_ (fst (getReadBuffer X p')))
      = IOBuf.data (readBuffer_ p) /\
    headerSize info + bodySize info
      < IOBuf.capacity (readBuffer_ (fst (getReadBuffer X p'))).
Proof.
  intros Hg Hwf Hnd Hne Hp Hfits Hh Hroom.
  rewrite <- (messageSize_fits info Hfits) in *.
  assert (Hlt : IOBuf.length (readBuffer_ p) < messageSizeOf info) by lia.
  rewrite (loop_wait_body fuel p info Hne Hp Hlt Hh).
  eexists. split; [reflexivity|].
  set (q := growForBody X (set_umMsgInfo info p)).
  assert (Hq : readBuffer_ q
               = IOBuf.mk (messageSizeOf info) 0 (IOBuf.data (readBuffer_ p))
               /\ bufferSize_ q = N.max (bufferSize_ p) (messageSizeOf info)).
  { unfold q, growForBody, IOBuf.unshare.
    cbn [umMsgInfo_ set_umMsgInfo readBuffer_ bufferSize_ useJemallocNodumpAllocator_].
    apply N.ltb_lt in Hroom. rewrite Hroom.
    cbn [umMsgInfo_ set_umMsgInfo readBuffer_ bufferSize_ set_bufferSize
         set_readBuffer useJemallocNodumpAllocator_].
    rewrite Hnd.
    cbn [umMsgInfo_ set_umMsgInfo readBuffer_ bufferSize_ set_bufferSize
         set_readBuffer].
    unfold copyToNodumpBuffer, IOBuf.takeOwnership. now rewrite reserve_data. }
  destruct Hq as [Hb Hs]. split; [exact Hb|]. split; [exact Hs|].
  destruct (getReadBuffer_data q) as (Hd & _).
  split; [now rewrite Hd, Hb|].
  assert (Hlen : 0 < IOBuf.length (readBuffer_ p)).
  { unfold IOBuf.empty in Hne. apply N.eqb_neq in Hne. lia. }
  unfold getReadBuffer, IOBuf.unshare. cbn [fst readBuffer_ set_readBuffer].
  rewrite Hb, Hs. unfold IOBuf.reserve, IOBuf.tailroom, IOBuf.length in *.
  cbn [IOBuf.capacity IOBuf.headroom IOBuf.data].
  replace (N.of_nat (List.length (IOBuf.data (readBuffer_ p))) =? 0) with false
    by (symmetry; apply N.eqb_neq; lia).
  cbn [andb]. rewrite N.ltb_irrefl.
  set (len := N.of_nat (List.length (IOBuf.data (readBuffer_ p)))) in *.
  set (m := messageSizeOf info) in *.
  replace (N.max (bufferSize_ p) m <=? m - (0 + len)) with false
    by (symmetry; apply N.leb_gt; lia).
  rewrite andb_false_r.
  replace (0 + N.max (bufferSize_ p) m <=? 0 + (m - (0 + len))) with false
    by (symmetry; apply N.leb_gt; lia).
  cbn [IOBuf.capacity].
  pose proof (Hg (len + 0 + N.max (bufferSize_ p) m)). lia.
Qed.

(** *** The write region *)

(** X14: the region [getReadBuffer] hands out is there to be written.  On a
    well-formed buffer it leaves the pending bytes at the start of the
    storage, never gives storage back, and returns a length within the tail
    room: appending any number of bytes up to that length keeps headroom
    plus pending bytes within the capacity. *)
Theorem getReadBuffer_region_is_writable (p : Parser) (bytes : list byte) :
  goodSize_ok X -> IOBuf.wf (readBuffer_ p) ->
  let b := readBuffer_ p in
  let b' := readBuffer_ (fst (getReadBuffer X p)) in
  let max_len := snd (getReadBuffer X p) in
  IOBuf.headroom b' = 0 /\ IOBuf.data b' = IOBuf.data b /\
  IOBuf.capacity b <= IOBuf.capacity b' /\
  max_len <= IOBuf.tailroom b' /\
  (N.of_nat (List.length bytes) <= max_len ->
   IOBuf.wf (IOBuf.append bytes b')).
Proof.
  intros Hg Hwf. cbn zeta.
  destruct (getReadBuffer_adjusts p Hg Hwf) as (_ & Hwf' & Hd & Hch & Hmax & _).
  cbn zeta in Hwf', Hd, Hch, Hmax.
  set (b' := readBuffer_ (fst (getReadBuffer X p))) in *.
  assert (Hhead : IOBuf.headroom b' = 0 /\
                  IOBuf.capacity (readBuffer_ p) <= IOBuf.capacity b').
  { destruct (getReadBuffer_choice p).
    - destruct Hch as (_ & ->). cbn. split; [reflexivity | lia].
    - destruct Hch as (_ & _ & ->). cbn. split; [reflexivity | lia].
    - destruct Hch as (_ & Hh0 & Hr & Hh & Ht). split; [exact Hh|].
      rewrite Hr. unfold IOBuf.reserve.
      destruct (_ && _); [lia|].
      destruct (0 + bufferSize_ p <=? _) eqn:E; cbn [IOBuf.capacity]; [lia|].
      apply N.leb_gt in E.
      pose proof (Hg (IOBuf.length (readBuffer_ p) + 0 + bufferSize_ p)).
      unfold IOBuf.wf, IOBuf.tailroom in *. lia. }
  destruct Hhead as [Hh Hc].
  repeat split; try assumption; [lia|].
  intros Hfit. unfold IOBuf.wf, IOBuf.append, IOBuf.tailroom, IOBuf.length in *.
  cbn [IOBuf.capacity IOBuf.headroom IOBuf.data] in *.
  rewrite length_app. lia.
Qed.
End ParserFacts.

(** ** Properties of the request context *)

Section ContextFacts.

Import ProxyRequestContext.

Variables AccessPoint ShardSplitter Request Reply Logger AdditionalLogger : Type.

Local Abbreviation Ctx := (ProxyRequestContext.t Logger AdditionalLogger).
Local Abbreviation Result :=
  (ProxyRequestContext.Outcome AccessPoint ShardSplitter Request Reply).

(** C8: in recording mode [onReplyReceived] returns at once and no logger is
    invoked; otherwise, with both loggers installed, it builds the logger
    context from its arguments and hands it to the primary logger, then to
    the additional one. *)
Theorem C8_onReplyReceived (c : Ctx) (poolName : string) (ap : AccessPoint)
    (prefix : string) (request : Request) (reply : Reply) (t0 t1 : Z) :
  (recording_ c = true ->
   onReplyReceived c poolName ap prefix request reply t0 t1
   = (Returns [] : Result)) /\
  (recording_ c = false ->
   (exists l, logger_ c = Some l) ->
   (exists l, additionalLogger_ c = Some l) ->
   onReplyReceived c poolName ap prefix request reply t0 t1
   = (Returns
        [LoggerLog (mkLoggerContext poolName ap prefix request reply t0 t1);
         AdditionalLoggerLog
           (mkLoggerContext poolName ap prefix request reply t0 t1)]
      : Result)).
Proof.
  unfold onReplyReceived. split.
  - now intros ->.
  - intros -> [l ->] [l' ->]. reflexivity.
Qed.

(** C9: with [recording_] false, [recordDestination] and
    [recordShardSplitter] return with an empty trace: no callback is invoked
    and the recording member of the union is not read, whatever the union
    holds. *)
Theorem C9_record_noop_when_not_recording (c : Ctx) (poolName : string)
    (index : N) (ap : AccessPoint) (splitter : ShardSplitter) :
  recording_ c = false ->
  recordDestination c poolName index ap = (Returns [] : Result) /\
  recordShardSplitter c splitter = (Returns [] : Result).
Proof.
  intros H. unfold recordDestination, recordShardSplitter. now rewrite H.
Qed.

End ContextFacts.

(** ** The concrete instance meets what the theorems ask *)

Lemma Demo_goodSize_ok : goodSize_ok Demo.ext.
Proof. intros n. cbn. lia. Qed.

Lemma Demo_parseHeader (pr : mc_protocol_t) (d : list byte) :
  exists magic, parseHeader Demo.ext pr d = Demo.parseToy magic d.
Proof.
  unfold parseHeader. destruct (mc_protocol_eqb _ _); eexists; reflexivity.
Qed.

Lemma Demo_headerStable : headerStable Demo.ext.
Proof.
  intros pr d e i. unfold parseHeader.
  destruct (mc_protocol_eqb _ _); cbn [umbrellaParseHeader caretParseHeader Demo.ext];
    destruct d as [|m [|h [|b t]]]; cbn; try discriminate; trivial.
Qed.

Lemma Demo_errorStable : errorStable Demo.ext.
Proof.
  intros pr d e. unfold parseHeader.
  destruct (mc_protocol_eqb _ _); cbn [umbrellaParseHeader caretParseHeader Demo.ext];
    destruct d as [|m [|h [|b t]]]; cbn; try discriminate; trivial.
Qed.

Lemma Demo_positiveSize : positiveSize Demo.ext.
Proof.
  intros pr d i. destruct (Demo_parseHeader pr d) as [magic ->].
  unfold Demo.parseToy. destruct d as [|m [|h [|b t]]]; try discriminate.
  destruct (Byte.eqb m magic && (3 <=? Byte.to_N h)) eqn:E; [|discriminate].
  intros [= <-]. apply andb_prop in E as [_ E]. apply N.leb_le in E.
  pose proof (Byte.to_N_bounded h). pose proof (Byte.to_N_bounded b).
  unfold messageSizeOf, size_max. cbn [headerSize bodySize].
  rewrite N.mod_small; lia.
Qed.

Lemma Demo_callbackLocal : callbackLocal Demo.accepting.
Proof.
  intros pr i b b' c _. unfold messageReady.
  now destruct (mc_protocol_eqb _ _).
Qed.

Lemma Demo_acceptsAll : acceptsAll Demo.accepting.
Proof.
  intros pr i b c. unfold messageReady. now destruct (mc_protocol_eqb _ _).
Qed.

Lemma Demo_asciiKeepsWf : asciiKeepsWf Demo.accepting.
Proof.
  intros b c Hwf. cbn [handleAscii Demo.accepting fst].
  apply trimStart_wf; [exact Hwf | lia].
Qed.

(** ** The theorems at concrete inputs *)

Lemma C10_empty_read_noop_witness :
  IOBuf.length (readBuffer_ (Demo.parser0 16 64)) = 0 /\
  readDataAvailable Demo.accepting Demo.ext 0 [] (Demo.parser0 16 64)
  = Some (true, Demo.parser0 16 64, []) /\
  seenFirstByte_ (Demo.parser0 16 64) = false.
Proof.
  split; [reflexivity|]. split; [|reflexivity].
  apply (C10_empty_read_noop Demo.accepting Demo.ext 0 (Demo.parser0 16 64)).
  reflexivity.
Defined.



(** A whole Caret frame followed by three bytes that are no header: the
    frame is delivered, then the parse error is reported, and the three bytes
    are still pending when the call returns false. *)
Lemma C3_malformed_after_frame_counterexample :
  exists p' info buf,
    feed Demo.accepting Demo.ext 3
      (Demo.frame4 ++ [x01; x00; x00]) (Demo.parser0 64 64)
    = Some (false, p',
            [EvCaretMessageReady info buf true;
             EvParseError mc_res_remote_error "Error parsing caret header"]) /\
    parseHeader Demo.ext mc_caret_protocol [x01; x00; x00]
    = (MESSAGE_PARSE_ERROR, Demo.info0) /\
    IOBuf.data (readBuffer_ p') = [x01; x00; x00] /\
    IOBuf.length (readBuffer_ p') <> 0.
Proof.
  eexists _, _, _. split; [vm_compute; reflexivity|].
  split; [reflexivity|]. split; [reflexivity|]. vm_compute. discriminate.
Defined.

Lemma C3_malformed_header_witness :
  exists p',
    readUmbrellaOrCaretData Demo.accepting Demo.ext 1
      (Demo.caretParser 64 64 64 0 [x01; x00; x00])
    = Some (false, p',
            [EvParseError mc_res_remote_error "Error parsing caret header"]) /\
    callback_ p' = 1%nat.
Proof.
  destruct (C3_malformed_header Demo.accepting Demo.ext 0
              (Demo.caretParser 64 64 64 0 [x01; x00; x00]) Demo.info0)
    as (p' & Hrun & Hcb & _); [reflexivity | reflexivity |].
  exists p'. split; [exact Hrun | exact Hcb].
Defined.

(** The first byte 0x01 names no protocol: the call returns false and leaves
    [seenFirstByte_] true with the protocol unknown. *)
Lemma C4_unknown_first_byte_counterexample :
  exists p',
    feed Demo.accepting Demo.ext 1 [x01] (Demo.parser0 16 64)
    = Some (false, p', []) /\
    reachable Demo.accepting Demo.ext false p' /\
    seenFirstByte_ p' = true /\ protocol_ p' = mc_unknown_protocol.
Proof.
  eexists. split; [vm_compute; reflexivity|]. split; [|split; reflexivity].
  apply (reach_readDataAvailable Demo.accepting Demo.ext true
           (fst (getReadBuffer Demo.ext (Demo.parser0 16 64))) _ 1 [x01] false []).
  - apply reach_getReadBuffer. apply reach_new.
  - vm_compute. reflexivity.
Defined.

Lemma C4_detection_invariant_witness :
  exists p',
    feed Demo.accepting Demo.ext 3 Demo.frame4 (Demo.parser0 64 64)
    = Some (true, p', [EvCaretMessageReady (mkInfo 3 1 0 0)
                         (IOBuf.mk 64 0 Demo.frame4) true]) /\
    (outOfOrder_ p' = true <->
     protocol_ p' = mc_umbrella_protocol \/ protocol_ p' = mc_caret_protocol) /\
    (true = true -> seenFirstByte_ p' = true ->
     protocol_ p' <> mc_unknown_protocol).
Proof.
  eexists. split; [vm_compute; reflexivity|].
  apply (C4_detection_invariant Demo.accepting Demo.ext true).
  eapply (reach_readDataAvailable Demo.accepting Demo.ext true
            (fst (getReadBuffer Demo.ext (Demo.parser0 64 64))) _ 3
            Demo.frame4 true).
  - apply reach_getReadBuffer. apply reach_new.
  - vm_compute. reflexivity.
Defined.

(** A parser built with a minimum buffer size of 0 is handed a write region
    of length 0. *)
Lemma C5_zero_buffer_size_counterexample :
  snd (getReadBuffer Demo.ext (Demo.parser0 0 64)) = 0 /\
  ~ 1 <= snd (getReadBuffer Demo.ext (Demo.parser0 0 64)).
Proof. split; [reflexivity | vm_compute; intros H; now apply H]. Defined.

Lemma C5_getReadBuffer_adjustment_witness :
  getReadBuffer_choice (Demo.caretParser 16 64 16 0 [x00; x01]) = AdjReserve /\
  readBuffer_ (fst (getReadBuffer Demo.ext (Demo.caretParser 16 64 16 0 [x00; x01])))
  = IOBuf.mk 18 0 [x00; x01] /\
  snd (getReadBuffer Demo.ext (Demo.caretParser 16 64 16 0 [x00; x01])) = 16 /\
  1 <= snd (getReadBuffer Demo.ext (Demo.caretParser 16 64 16 0 [x00; x01])).
Proof.
  destruct (C5_getReadBuffer_adjustment Demo.ext
              (Demo.caretParser 16 64 16 0 [x00; x01]) Demo_goodSize_ok)
    as (_ & _ & _ & _ & _ & Hone).
  - vm_compute. discriminate.
  - repeat split; try reflexivity. apply Hone. vm_compute. discriminate.
Defined.

(** Header complete, body of 100 bytes announced, 8 bytes of storage. *)
Lemma C6_grow_for_body_witness :
  exists p',
    readUmbrellaOrCaretData Demo.accepting Demo.ext 1
      (Demo.caretParser 8 64 8 0 [Demo.caretMagic; "003"%byte; "d"%byte])
    = Some (true, p', []) /\
    bufferSize_ p' = 103 /\
    IOBuf.data (readBuffer_ p') = [Demo.caretMagic; "003"%byte; "d"%byte] /\
    103 <= IOBuf.length (readBuffer_ p') + IOBuf.tailroom (readBuffer_ p').
Proof.
  destruct (C6_grow_for_body Demo.accepting Demo.ext 0
              (Demo.caretParser 8 64 8 0 [Demo.caretMagic; "003"%byte; "d"%byte])
              (mkInfo 3 100 0 0) Demo_goodSize_ok)
    as (p' & Hrun & Hbs & Hd & _ & Hroom);
    try reflexivity; try (vm_compute; discriminate).
  exists p'. repeat split; assumption.
Defined.

(** The 10,000th frame on a 64-byte buffer with [maxBufferSize_] 16. *)
Lemma C7_shrink_after_dispatch_witness :
  exists p2 ev,
    readDataAvailable Demo.accepting Demo.ext 2 Demo.frame4
      (Demo.caretParser 64 16 64 9999 [])
    = Some (true, p2, [ev; EvBufferReplaced 16]) /\
    readBuffer_ p2 = IOBuf.mk 16 0 [] /\
    bufferSize_ p2 = 16 /\ parsedMessages_ p2 = 0.
Proof.
  edestruct (C7_shrink_after_dispatch Demo.accepting Demo.ext 2 Demo.frame4
               (Demo.caretParser 64 16 64 9999 []))
    as (p2 & evs2 & Hrun & [(_ & He & Hb & Hbs & Hpm & _) | (Hn & _)]).
  - reflexivity.
  - reflexivity.
  - reflexivity.
  - vm_compute. reflexivity.
  - exists p2. eexists. subst evs2. split; [exact Hrun|].
    repeat split; assumption.
  - exfalso. apply Hn. repeat split; vm_compute; (discriminate || reflexivity).
Defined.

Lemma C8_onReplyReceived_witness :
  ProxyRequestContext.onReplyReceived (ShardSplitter := unit)
    (ProxyRequestContext.mk true
       (ProxyRequestContext.recordingState_ None) (@None unit) (@None unit))
    "poolA" 3 "" tt tt 0%Z 5%Z
  = ProxyRequestContext.Returns [] /\
  ProxyRequestContext.onReplyReceived (ShardSplitter := unit)
    (ProxyRequestContext.mk false
       (ProxyRequestContext.context_ 0) (Some tt) (Some tt))
    "poolA" 3 "" tt tt 0%Z 5%Z
  = ProxyRequestContext.Returns
      [ProxyRequestContext.LoggerLog
         (ProxyRequestContext.mkLoggerContext "poolA" 3 "" tt tt 0%Z 5%Z);
       ProxyRequestContext.AdditionalLoggerLog
         (ProxyRequestContext.mkLoggerContext "poolA" 3 "" tt tt 0%Z 5%Z)].
Proof.
  split.
  - apply (C8_onReplyReceived N unit unit unit unit unit). reflexivity.
  - apply (C8_onReplyReceived N unit unit unit unit unit);
      [reflexivity | now exists tt | now exists tt].
Defined.

Lemma C9_record_noop_when_not_recording_witness :
  ProxyRequestContext.recordDestination
    (ShardSplitter := unit) (Request := unit) (Reply := unit)
    (ProxyRequestContext.mk false
       (ProxyRequestContext.context_ 0) (Some tt) (Some tt))
    "poolA" 3 7
  = ProxyRequestContext.Returns [] /\
  ProxyRequestContext.recordShardSplitter
    (AccessPoint := N) (Request := unit) (Reply := unit)
    (ProxyRequestContext.mk false
       (ProxyRequestContext.context_ 0) (Some tt) (Some tt))
    tt
  = ProxyRequestContext.Returns [].
Proof.
  apply (C9_record_noop_when_not_recording N unit unit unit unit unit).
  reflexivity.
Defined.

(** ** The further theorems at concrete inputs *)

Lemma dispatcher_terminates_witness :
  exists r, forall fuel,
    (List.length (Demo.frame40 ++ Demo.frame56) < fuel)%nat ->
    readUmbrellaOrCaretData Demo.accepting Demo.ext fuel
      (Demo.caretParser 128 128 128 0 (Demo.frame40 ++ Demo.frame56)) = Some r.
Proof.
  exact (dispatcher_terminates Demo.accepting Demo.ext
           (Demo.caretParser 128 128 128 0 (Demo.frame40 ++ Demo.frame56))
           Demo_positiveSize).
Defined.

Lemma empty_frame_never_returns_witness :
  messageSizeOf Demo2.emptyInfo = 0 /\
  readUmbrellaOrCaretData Demo.accepting Demo2.extEmpty 500
    (Demo.caretParser 64 64 64 0 [Demo.caretMagic]) = None.
Proof.
  split; [reflexivity|].
  apply (empty_frame_never_returns Demo.accepting Demo2.extEmpty Demo2.emptyInfo 500).
  - exact Demo_acceptsAll.
  - reflexivity.
  - discriminate.
  - reflexivity.
Defined.

Lemma connection_conserves_bytes_witness :
  exists p' evs,
    feedAll Demo.accepting Demo.ext 3
      [Demo2.frameA ++ [Demo.caretMagic]; ["003"%byte; "001"%byte]; ["c"%byte; "^"%byte]]
      (Demo.caretParser 64 64 64 0 []) = Some (true, p', evs) /\
    List.concat (map frame_bytes (frames evs)) ++ IOBuf.data (readBuffer_ p')
    = Demo2.frameA ++ Demo2.frameB ++ ["^"%byte].
Proof.
  eexists _, _. split; [vm_compute; reflexivity|].
  apply (connection_conserves_bytes Demo.accepting Demo.ext 3
           [Demo2.frameA ++ [Demo.caretMagic]; ["003"%byte; "001"%byte];
            ["c"%byte; "^"%byte]]
           (Demo.caretParser 64 64 64 0 []));
    [reflexivity | reflexivity | vm_compute; reflexivity].
Defined.

Lemma refusal_clears_buffer_witness :
  exists p' e1 e2,
    readUmbrellaOrCaretData Demo2.refusingSecond Demo.ext 3
      (Demo.caretParser 64 64 64 0 (Demo2.frameA ++ Demo2.frameB ++ Demo2.frameB))
    = Some (false, p', [e1; e2]) /\
    readBuffer_ p' = IOBuf.mk 64 0 [].
Proof.
  eexists _, _, _. split; [vm_compute; reflexivity|].
  eapply (refusal_clears_buffer Demo2.refusingSecond Demo.ext 3
            (Demo.caretParser 64 64 64 0
               (Demo2.frameA ++ Demo2.frameB ++ Demo2.frameB)));
    vm_compute; reflexivity.
Defined.

Lemma Demo_representableSizes : representableSizes Demo.ext.
Proof.
  intros pr d i. destruct (Demo_parseHeader pr d) as [magic ->].
  unfold Demo.parseToy. destruct d as [|m [|h [|b t]]]; try discriminate.
  destruct (Byte.eqb m magic && (3 <=? Byte.to_N h)); [|discriminate].
  intros [= <-].
  pose proof (Byte.to_N_bounded h). pose proof (Byte.to_N_bounded b).
  unfold size_max. cbn [headerSize bodySize]. lia.
Qed.

Lemma callbacks_get_whole_frames_witness :
  exists p' evs,
    readUmbrellaOrCaretData Demo.accepting Demo.ext 3
      (Demo.caretParser 64 64 64 0 (Demo2.frameA ++ Demo2.frameB ++ ["^"%byte]))
    = Some (true, p', evs) /\ List.length evs = 2%nat /\
    Forall (wholeFrame Demo.ext mc_caret_protocol
              (Demo2.frameA ++ Demo2.frameB ++ ["^"%byte])) evs.
Proof.
  eexists _, _. split; [vm_compute; reflexivity|]. split; [reflexivity|].
  eapply (callbacks_get_whole_frames Demo.accepting Demo.ext 3
            (Demo.caretParser 64 64 64 0
               (Demo2.frameA ++ Demo2.frameB ++ ["^"%byte]))).
  - exact Demo_representableSizes.
  - vm_compute. reflexivity.
Defined.

Lemma detection_is_irrevocable_witness :
  exists p' evs,
    feedAll Demo.accepting Demo.ext 3 [["a"%byte]; ["}"%byte]; Demo2.frameA]
      (Demo.caretParser 64 64 64 0 []) = Some (false, p', evs) /\
    seenFirstByte_ p' = true /\ protocol_ p' = mc_caret_protocol /\
    outOfOrder_ p' = true.
Proof.
  eexists _, _. split; [vm_compute; reflexivity|].
  eapply (detection_is_irrevocable Demo.accepting Demo.ext 3
            [["a"%byte]; ["}"%byte]; Demo2.frameA]
            (Demo.caretParser 64 64 64 0 []));
    [reflexivity | vm_compute; reflexivity].
Defined.

Lemma first_byte_decides_witness :
  exists p' evs,
    readDataAvailable Demo.accepting Demo.ext 3 ("}"%byte :: Demo2.frameA)
      (Demo.parser0 64 64) = Some (true, p', evs) /\
    seenFirstByte_ p' = true /\ protocol_ p' = mc_umbrella_protocol /\
    outOfOrder_ p' = true.
Proof.
  eexists _, _. split; [vm_compute; reflexivity|].
  edestruct (first_byte_decides Demo.accepting Demo.ext 3 "}"%byte Demo2.frameA
               (Demo.parser0 64 64)) as (A & B & C & _);
    [reflexivity | reflexivity | vm_compute; reflexivity |].
  split; [exact A|]. split; [exact B|]. apply C. reflexivity.
Defined.

Lemma failed_detection_then_ascii_witness :
  exists p1,
    readDataAvailable Demo.accepting Demo.ext 1 [x01; "g"%byte] (Demo.parser0 64 64)
    = Some (false, p1, []) /\
    exists p2 buf,
      readDataAvailable Demo.accepting Demo.ext 1 Demo2.frameA p1
      = Some (true, p2, [EvHandleAscii buf]) /\
      IOBuf.data buf = [x01; "g"%byte] ++ Demo2.frameA /\
      readBuffer_ p2 = fst (handleAscii Demo.accepting buf 0%nat).
Proof.
  apply (failed_detection_then_ascii Demo.accepting Demo.ext 1 1 x01 ["g"%byte]
           Demo2.frameA (Demo.parser0 64 64)); reflexivity.
Defined.

Lemma connection_buffer_invariant_witness :
  exists p' evs,
    feedAll Demo.accepting Demo.ext 3
      [[Demo.caretMagic; "003"%byte; "d"%byte]; ["a"%byte]; ["b"%byte; "c"%byte]]
      (Demo.parser0 8 4) = Some (true, p', evs) /\
    IOBuf.wf (readBuffer_ p') /\ maxBufferSize_ p' = 4 /\
    N.min 8 4 <= bufferSize_ p' /\ 1 <= snd (getReadBuffer Demo.ext p').
Proof.
  eexists _, _. split; [vm_compute; reflexivity|].
  edestruct (connection_buffer_invariant Demo.accepting Demo.ext 3
               [[Demo.caretMagic; "003"%byte; "d"%byte]; ["a"%byte];
                ["b"%byte; "c"%byte]] 0%nat 8 4 false)
    as (A & B & C & D);
    [exact Demo_goodSize_ok | exact Demo_asciiKeepsWf | vm_compute; reflexivity |].
  split; [exact A|]. split; [exact B|]. split; [exact C|]. apply D; lia.
Defined.

Lemma malformed_header_is_sticky_witness :
  exists p',
    readDataAvailable Demo.accepting Demo.ext 1 Demo2.frameA
      (fst (getReadBuffer Demo.ext (Demo.caretParser 64 64 64 0 [x01; x00; x00])))
    = Some (false, p',
            [EvParseError mc_res_remote_error "Error parsing caret header"]) /\
    IOBuf.data (readBuffer_ p') = [x01; x00; x00] ++ Demo2.frameA.
Proof.
  edestruct (malformed_header_is_sticky Demo.accepting Demo.ext 0 Demo2.frameA
               (Demo.caretParser 64 64 64 0 [x01; x00; x00]))
    as (p' & A & B & _);
    [exact Demo_errorStable | reflexivity | reflexivity | discriminate
     | reflexivity |].
  exists p'. split; [exact A | exact B].
Defined.

Lemma fragmentation_does_not_matter_witness :
  exists r q1 e1 q2 e2,
    feedAll Demo.accepting Demo.ext 3
      [Demo2.frameA ++ Demo2.frameB]
      (Demo.caretParser 64 64 64 0 []) = Some (r, q1, e1) /\
    feedAll Demo.accepting Demo.ext 3
      [["^"%byte; "003"%byte]; []; ["002"%byte; "a"%byte; "b"%byte; "^"%byte];
       ["003"%byte; "001"%byte; "c"%byte]]
      (Demo.caretParser 64 64 64 0 []) = Some (r, q2, e2) /\
    frames e1 = frames e2.
Proof.
  eexists _, _, _, _, _. split; [vm_compute; reflexivity|].
  split; [vm_compute; reflexivity|].
  eapply (fragmentation_does_not_matter Demo.accepting Demo.ext 3 3
            [Demo2.frameA ++ Demo2.frameB]
            [["^"%byte; "003"%byte]; [];
             ["002"%byte; "a"%byte; "b"%byte; "^"%byte];
             ["003"%byte; "001"%byte; "c"%byte]]
            (Demo.caretParser 64 64 64 0 [])).
  - exact Demo_goodSize_ok.
  - exact Demo_callbackLocal.
  - exact Demo_headerStable.
  - exact Demo_errorStable.
  - exact Demo_positiveSize.
  - vm_compute. reflexivity.
  - unfold connected, IOBuf.wf, IOBuf.length. cbn. repeat split; lia.
  - vm_compute. reflexivity.
  - vm_compute. reflexivity.
  - vm_compute. reflexivity.
Defined.

Lemma reset_then_frame_witness :
  exists p' evs fr,
    feed Demo.accepting Demo.ext 2 Demo2.frameA
      (reset (Demo.caretParser 64 64 64 0 [Demo.caretMagic; "003"%byte]))
    = Some (true, p', evs) /\
    frames evs = [fr] /\ frame_bytes fr = Demo2.frameA /\
    IOBuf.data (readBuffer_ p') = [] /\ protocol_ p' = mc_caret_protocol.
Proof.
  edestruct (reset_then_frame Demo.accepting Demo.ext
               (Demo.caretParser 64 64 64 0 [Demo.caretMagic; "003"%byte])
               Demo2.frameA (mkInfo 3 2 0 0)) as (_ & H);
    [exact Demo_acceptsAll | reflexivity | reflexivity | cbn; lia
     | repeat split; discriminate | vm_compute; discriminate |].
  exact H.
Defined.

Lemma nodump_storage_left_at_next_getReadBuffer_witness :
  exists p',
    readUmbrellaOrCaretData Demo.accepting Demo2.extNodump 1
      (Demo2.caretParserNodump 8 64 8 [Demo.caretMagic; "003"%byte; "d"%byte])
    = Some (true, p', []) /\
    readBuffer_ p' = IOBuf.mk 103 0 [Demo.caretMagic; "003"%byte; "d"%byte] /\
    103 < IOBuf.capacity (readBuffer_ (fst (getReadBuffer Demo2.extNodump p'))).
Proof.
  edestruct (nodump_storage_left_at_next_getReadBuffer Demo.accepting
               Demo2.extNodump 0
               (Demo2.caretParserNodump 8 64 8
                  [Demo.caretMagic; "003"%byte; "d"%byte])
               (mkInfo 3 100 0 0))
    as (p' & A & B & _ & _ & E);
    [exact Demo_goodSize_ok | vm_compute; discriminate | reflexivity
     | reflexivity | reflexivity | reflexivity | vm_compute; discriminate
     | reflexivity |].
  exists p'. repeat split; assumption.
Defined.

Lemma getReadBuffer_region_is_writable_witness :
  IOBuf.headroom
    (readBuffer_ (fst (getReadBuffer Demo.ext
       (Demo.caretParser 16 64 16 0 [x00; x01])))) = 0 /\
  snd (getReadBuffer Demo.ext (Demo.caretParser 16 64 16 0 [x00; x01])) = 16 /\
  IOBuf.wf
    (IOBuf.append (repeat x00 16)
       (readBuffer_ (fst (getReadBuffer Demo.ext
          (Demo.caretParser 16 64 16 0 [x00; x01]))))).
Proof.
  destruct (getReadBuffer_region_is_writable Demo.ext
              (Demo.caretParser 16 64 16 0 [x00; x01]) (repeat x00 16)
              Demo_goodSize_ok) as (A & _ & _ & _ & E).
  - vm_compute. discriminate.
  - split; [exact A|]. split; [reflexivity|]. apply E. vm_compute. discriminate.
Defined.
